(** * Kartographer: the interactive map view controller

    A shallow embedding of the client-side map class of the Kartographer
    extension ([KartographerMap], an extension of Leaflet's [L.Map]) and of
    the two helper functions [validateBounds] and [getValidBounds] that
    compute the auto-fit bounds.

    JavaScript numbers are modelled by their exact values: a coordinate is
    [NaN] or a finite rational (every finite double is one), a zoom level is
    [NaN] or an integer.  The two infinities are not represented.  Leaflet
    itself is taken as an interface ([Surface]) for everything that depends
    on the size of the viewport (placing, fitting and reading the view); its
    plain data ([LatLng], [LatLngBounds]) is modelled concretely. *)

From Stdlib Require Import ZArith QArith Qabs Ascii String List Bool Lia.
From stdpp Require Import base option strings pretty list gmap.

Set Warnings "-register-all,-clear-no-such-hyp".

Open Scope string_scope.

(** ** JavaScript values *)

Module Js.

(** A JavaScript number: [NaN] or a finite value of type [A]. *)
Inductive number (A : Type) : Type :=
| NaN
| Fin (a : A).
Arguments NaN {A}.
Arguments Fin {A} a.

(** [isNaN( x )] where [x] is a number or [undefined] ([None]):
    [Number( undefined )] is [NaN]. *)
Definition isNaN {A} (x : option (number A)) : bool :=
  match x with
  | Some (Fin _) => false
  | Some NaN | None => true
  end.

(** Predicates on the characters of a string. *)
Fixpoint all_chars (P : ascii -> bool) (s : string) : bool :=
  match s with
  | EmptyString => true
  | String c s' => P c && all_chars P s'
  end.

Definition is_digit (c : ascii) : bool :=
  let n := nat_of_ascii c in (48 <=? n)%nat && (n <=? 57)%nat.

(** Characters of a printed number: digits, the sign and the point. *)
Definition is_numeric_char (c : ascii) : bool :=
  is_digit c || Ascii.eqb c "-" || Ascii.eqb c ".".

Definition numeric (s : string) : bool := all_chars is_numeric_char s.

Definition not_slash (c : ascii) : bool := negb (Ascii.eqb c "/").

Definition slashfree (s : string) : bool := all_chars not_slash s.

(** [Number::toString] of an integer. *)
Definition toString (z : Z) : string := pretty z.

(** [ToString] of a zoom that may be [undefined]. *)
Definition toStringU (z : option Z) : string :=
  match z with
  | Some z => toString z
  | None => "undefined"
  end.

Fixpoint zeros (n : nat) : string :=
  match n with
  | O => ""
  | S n' => String "0" (zeros n')
  end.

(** Step 8 of [Number.prototype.toFixed]: the integer [n] for which
    [n / 10^f - x] is as close to zero as possible, the larger one when
    there are two; [x] is not negative here. *)
Definition nearest (x : Q) (f : nat) : N :=
  Z.to_N ((2 * Qnum x * 10 ^ Z.of_nat f + Zpos (Qden x)) / (2 * Zpos (Qden x))).

(** [x.toFixed( fractionDigits )] for a finite [x]; an [undefined]
    argument converts to zero digits.  (A magnitude of 10^21 or more,
    which the built-in prints in exponent notation, is printed in
    positional notation here.) *)
Definition toFixed (x : Q) (fractionDigits : option nat) : string :=
  let f := default O fractionDigits in
  let s := if (Qnum x <? 0)%Z then "-" else "" in
  let n := nearest (Qabs x) f in
  let m := pretty n in
  let m :=
    if (f =? 0)%nat then m
    else
      let m := zeros (f + 1 - String.length m) ++ m in
      let k := String.length m in
      substring 0 (k - f) m ++ "." ++ substring (k - f) f m in
  s ++ m.

(** [a.join( '/' )] for an array of strings. *)
Fixpoint join_slash (l : list string) : string :=
  match l with
  | [] => ""
  | [a] => a
  | a :: l' => a ++ "/" ++ join_slash l'
  end.

End Js.

Import Js.

(** ** Leaflet's plain data *)

Module Leaflet.

Record LatLng : Type := mkLatLng { lat : Q; lng : Q }.

(** A rectangle with both corners set: south-west and north-east. *)
Record box : Type := mkBox { southWest : LatLng; northEast : LatLng }.

(** [L.LatLngBounds]: no corner at all after [new L.LatLngBounds()],
    both corners once it has been extended. *)
Definition LatLngBounds : Type := option box.

(** [bounds.isValid()]. *)
Definition isValid (b : LatLngBounds) : bool :=
  match b with Some _ => true | None => false end.

(** [Math.min] and [Math.max] on finite numbers. *)
Definition Math_min (a b : Q) : Q := if Qle_bool a b then a else b.
Definition Math_max (a b : Q) : Q := if Qle_bool a b then b else a.

(** What [extend] and [contains] are given in this program: a point, a
    bounds object, or the [false] that [validateBounds] returns. *)
Inductive value : Type :=
| VLatLng (p : LatLng)
| VBounds (b : LatLngBounds)
| VFalse.

(** The two corners that [extend] and [contains] read off their argument
    ([sw2], [ne2]); none for [false] and for a bounds without corners. *)
Definition corners (v : value) : option box :=
  match v with
  | VLatLng p => Some (mkBox p p)
  | VBounds b => b
  | VFalse => None
  end.

(** [bounds.extend( obj )]. *)
Definition extend (b : LatLngBounds) (obj : value) : LatLngBounds :=
  match corners obj with
  | None => b
  | Some (mkBox sw2 ne2) =>
      match b with
      | None => Some (mkBox sw2 ne2)
      | Some (mkBox sw ne) =>
          Some (mkBox (mkLatLng (Math_min (lat sw2) (lat sw)) (Math_min (lng sw2) (lng sw)))
                      (mkLatLng (Math_max (lat ne2) (lat ne)) (Math_max (lng ne2) (lng ne))))
      end
  end.

(** [outer.contains( obj )] for an [obj] that has corners. *)
Definition contains (outer inner : box) : bool :=
  let (sw, ne) := outer in
  let (sw2, ne2) := inner in
  Qle_bool (lat sw) (lat sw2) && Qle_bool (lat ne2) (lat ne)
  && Qle_bool (lng sw) (lng sw2) && Qle_bool (lng ne2) (lng ne).

(** A path of at least one position: geometry reaches the map only
    after the server has validated it against the GeoJSON schema. *)
Definition ring : Type := (LatLng * list LatLng)%type.

Definition points (r : ring) : list LatLng := fst r :: snd r.

(** [new L.LatLngBounds( latlngs )]: extend by every position in turn. *)
Definition boundsOf (ps : list LatLng) (b : LatLngBounds) : LatLngBounds :=
  fold_left (fun acc p => extend acc (VLatLng p)) ps b.

(** [new L.LatLngBounds( rings )]: extend by the bounds of every ring. *)
Definition boundsOfRings (rs : list ring) (b : LatLngBounds) : LatLngBounds :=
  fold_left (fun acc r => extend acc (VBounds (boundsOf (points r) None))) rs b.

(** The kinds of layer a Kartographer map holds.  A polygon is its outer
    ring followed by its holes, as [getLatLngs()] returns them. *)
Inductive layer : Type :=
| Marker (p : LatLng)
| Polyline (path : ring)
| Polygon (outer : ring) (holes : list ring)
| LayerGroup (children : list layer)
| TileLayer.

(** [layer.getBounds()] where the layer has that method.  (A feature
    group has one too, but [getValidBounds] walks into a group and never
    asks for it.) *)
Definition getBounds (l : layer) : option LatLngBounds :=
  match l with
  | Polyline path => Some (boundsOf (points path) None)
  | Polygon outer holes =>
      Some (boundsOf (flat_map points (outer :: holes)) None)
  | Marker _ | LayerGroup _ | TileLayer => None
  end.

(** [layer.getLatLng()] where the layer has that method. *)
Definition getLatLng (l : layer) : option LatLng :=
  match l with
  | Marker p => Some p
  | _ => None
  end.

(** [layer.getLatLngs()] of a polygon. *)
Definition getLatLngs (outer : ring) (holes : list ring) : list ring :=
  outer :: holes.

End Leaflet.

Import Leaflet.

(** ** BoundsFitter: [validateBounds] and [getValidBounds] *)

Definition worldLatLng : box :=
  mkBox (mkLatLng (-90) (-180)) (mkLatLng 90 180).

(** [worldLatLng.contains( bounds )] guarded by [bounds &&]. *)
Definition inWorld (v : value) : bool :=
  match corners v with
  | Some b => contains worldLatLng b
  | None => false
  end.

Definition validateBounds (l : layer) : value :=
  let bounds :=
    match getBounds l with
    | Some b => VBounds b
    | None => match getLatLng l with
              | Some p => VLatLng p
              | None => VFalse
              end
    end in
  if inWorld bounds then bounds
  else
    match l with
    | Polygon outer holes =>
        match getLatLngs outer holes !! 1%nat with
        | Some _ =>
            (* a geomask: drop the outer ring, look at the holes only *)
            let bounds :=
              VBounds (boundsOfRings (drop 1 (getLatLngs outer holes)) None) in
            if inWorld bounds then bounds else VFalse
        | None => VFalse
        end
    | _ => VFalse
    end.

Fixpoint getValidBounds (l : layer) : LatLngBounds :=
  match l with
  | LayerGroup children =>
      fold_left (fun layerBounds child =>
                   extend layerBounds (VBounds (getValidBounds child)))
                children None
  | _ => extend None (validateBounds l)
  end.

(** [getValidBounds( map )]: the map's [eachLayer] visits its layers. *)
Definition getValidBoundsMap (layers : list layer) : LatLngBounds :=
  getValidBounds (LayerGroup layers).

(** ** The map object *)

(** What the controller uses of [L.Map]: placing, fitting and reading
    the view.  These depend on the size of the container and on the
    projection, so the controller is verified against any implementation
    of them. *)
Class Surface (V : Type) : Type := {
  (** [L.Map.prototype.setView.call( this, center, zoom, options )] *)
  L_setView : LatLng -> Z -> V -> V;
  (** [this.fitBounds( bounds )] *)
  fitBounds : box -> V -> V;
  (** [this.fitWorld()] *)
  fitWorld : V -> V;
  (** [this.setZoom( zoom )] *)
  setZoom : Z -> V -> V;
  (** [this.getCenter()] *)
  getCenter : V -> LatLng;
  (** [this.getZoom()] *)
  getZoom : V -> Z;
  (** [latlng.wrap()] *)
  wrap : LatLng -> LatLng;
  (** [this.getSize().x] *)
  getSizeX : V -> Z;
  (** [L.Map.prototype.invalidateSize.call( this, options )] *)
  L_invalidateSize : V -> V;
  (** the view of a map just built in a fresh full screen container *)
  dialogView : V
}.

(** A center and zoom as the map remembers them: a center that is absent
    is [undefined], and so is a zoom that was absent or [NaN]. *)
Record position : Type := mkPosition {
  center : option LatLng;
  zoom : option Z
}.

(** The center argument of [initView] and [setView]: [undefined], an
    array of two numbers, or an [L.LatLng]. *)
Inductive centerArg : Type :=
| CUndefined
| CArray (a b : number Q)
| CLatLng (p : LatLng).

(** The zoom argument: [undefined] or a number. *)
Definition zoomArg : Type := option (number Z).

(** A position argument of [openFullScreen]. *)
Record positionArg : Type := mkPositionArg {
  pcenter : centerArg;
  pzoom : zoomArg
}.

(** The data attributes of the container that [setView] keeps up to date. *)
Record attrs : Type := mkAttrs {
  data_zoom : Z;
  data_longitude : Q;
  data_latitude : Q
}.

(** GeoJSON: a list of features, each one either drawable or malformed. *)
Inductive feature : Type :=
| Feature (l : layer)
| Malformed.

Definition geojson : Type := list feature.

(** A data group as the data manager resolves it. *)
Record group : Type := mkGroup {
  id : string;
  attribution : string;
  isExternal : bool;
  getGeoJSON : geojson
}.

(** The options [addDataGroups] builds for a layer. *)
Record layerOptions : Type := mkLayerOptions {
  opt_attribution : string;
  opt_name : option string
}.

(** A feature layer registered in [dataLayers]. *)
Record dataLayer : Type := mkDataLayer {
  layer_geoJSON : geojson;
  layer_options : layerOptions;
  rendered : layer
}.

(** Calls into the collaborators of the map, in the order they happen. *)
Inductive event : Type :=
| LoadGroups (dataGroups : list string)
| LoadInline
| LogWarn (groupId : string)
| LogError
| LogException
| AddAttribution (text : string)
| AddHandlerSleep
| SleepMap
| SleepDisable
| SleepEnable
| ScrollWheelZoomDisable
| ToggleClassStatic (state : bool)
| NewKartographerMap
| RenderDialog.

(** Callbacks waiting for [kartographerisready]. *)
Inductive callback : Type :=
| OpenFullScreen (position : option positionArg).

Inductive KMap (V : Type) : Type := mkMap {
  view : V;
  fallbackZoom : Z;
  link : bool;
  fullscreen : bool;
  alwaysInteractive : bool;
  fullScreenRoute : string;
  layers : list layer;
  dataLayers : gmap string dataLayer;
  _initialPosition : option position;
  visible : bool;
  data : option attrs;
  _kartographer_ready : bool;
  listeners : list callback;
  _static : option bool;
  _staticTimer : bool;
  _updatingHash : bool;
  fullScreenMap : option (KMap V);
  log : list event
}.

Arguments mkMap {V}.
Arguments view {V}.
Arguments fallbackZoom {V}.
Arguments link {V}.
Arguments fullscreen {V}.
Arguments alwaysInteractive {V}.
Arguments fullScreenRoute {V}.
Arguments layers {V}.
Arguments dataLayers {V}.
Arguments _initialPosition {V}.
Arguments visible {V}.
Arguments data {V}.
Arguments _kartographer_ready {V}.
Arguments listeners {V}.
Arguments _static {V}.
Arguments _staticTimer {V}.
Arguments _updatingHash {V}.
Arguments fullScreenMap {V}.
Arguments log {V}.

Section Setters.
Context {V : Type}.

Definition set_view (x : V) (m : KMap V) : KMap V :=
  mkMap x (fallbackZoom m) (link m) (fullscreen m) (alwaysInteractive m)
    (fullScreenRoute m) (layers m) (dataLayers m) (_initialPosition m)
    (visible m) (data m) (_kartographer_ready m) (listeners m) (_static m)
    (_staticTimer m) (_updatingHash m) (fullScreenMap m) (log m).
Definition set_layers (x : list layer) (m : KMap V) : KMap V :=
  mkMap (view m) (fallbackZoom m) (link m) (fullscreen m)
    (alwaysInteractive m) (fullScreenRoute m) x (dataLayers m)
    (_initialPosition m) (visible m) (data m) (_kartographer_ready m)
    (listeners m) (_static m) (_staticTimer m) (_updatingHash m)
    (fullScreenMap m) (log m).
Definition set_dataLayers (x : gmap string dataLayer) (m : KMap V) : KMap V :=
  mkMap (view m) (fallbackZoom m) (link m) (fullscreen m)
    (alwaysInteractive m) (fullScreenRoute m) (layers m) x
    (_initialPosition m) (visible m) (data m) (_kartographer_ready m)
    (listeners m) (_static m) (_staticTimer m) (_updatingHash m)
    (fullScreenMap m) (log m).
Definition set_initialPosition (x : option position) (m : KMap V) : KMap V :=
  mkMap (view m) (fallbackZoom m) (link m) (fullscreen m)
    (alwaysInteractive m) (fullScreenRoute m) (layers m) (dataLayers m) x
    (visible m) (data m) (_kartographer_ready m) (listeners m) (_static m)
    (_staticTimer m) (_updatingHash m) (fullScreenMap m) (log m).
Definition set_data (x : option attrs) (m : KMap V) : KMap V :=
  mkMap (view m) (fallbackZoom m) (link m) (fullscreen m)
    (alwaysInteractive m) (fullScreenRoute m) (layers m) (dataLayers m)
    (_initialPosition m) (visible m) x (_kartographer_ready m) (listeners m)
    (_static m) (_staticTimer m) (_updatingHash m) (fullScreenMap m) (log m).
Definition set_kartographer_ready (x : bool) (m : KMap V) : KMap V :=
  mkMap (view m) (fallbackZoom m) (link m) (fullscreen m)
    (alwaysInteractive m) (fullScreenRoute m) (layers m) (dataLayers m)
    (_initialPosition m) (visible m) (data m) x (listeners m) (_static m)
    (_staticTimer m) (_updatingHash m) (fullScreenMap m) (log m).
Definition set_listeners (x : list callback) (m : KMap V) : KMap V :=
  mkMap (view m) (fallbackZoom m) (link m) (fullscreen m)
    (alwaysInteractive m) (fullScreenRoute m) (layers m) (dataLayers m)
    (_initialPosition m) (visible m) (data m) (_kartographer_ready m) x
    (_static m) (_staticTimer m) (_updatingHash m) (fullScreenMap m) (log m).
Definition set_static (x : option bool) (m : KMap V) : KMap V :=
  mkMap (view m) (fallbackZoom m) (link m) (fullscreen m)
    (alwaysInteractive m) (fullScreenRoute m) (layers m) (dataLayers m)
    (_initialPosition m) (visible m) (data m) (_kartographer_ready m)
    (listeners m) x (_staticTimer m) (_updatingHash m) (fullScreenMap m)
    (log m).
Definition set_staticTimer (x : bool) (m : KMap V) : KMap V :=
  mkMap (view m) (fallbackZoom m) (link m) (fullscreen m)
    (alwaysInteractive m) (fullScreenRoute m) (layers m) (dataLayers m)
    (_initialPosition m) (visible m) (data m) (_kartographer_ready m)
    (listeners m) (_static m) x (_updatingHash m) (fullScreenMap m) (log m).
Definition set_updatingHash (x : bool) (m : KMap V) : KMap V :=
  mkMap (view m) (fallbackZoom m) (link m) (fullscreen m)
    (alwaysInteractive m) (fullScreenRoute m) (layers m) (dataLayers m)
    (_initialPosition m) (visible m) (data m) (_kartographer_ready m)
    (listeners m) (_static m) (_staticTimer m) x (fullScreenMap m) (log m).
Definition set_fullScreenMap (x : option (KMap V)) (m : KMap V) : KMap V :=
  mkMap (view m) (fallbackZoom m) (link m) (fullscreen m)
    (alwaysInteractive m) (fullScreenRoute m) (layers m) (dataLayers m)
    (_initialPosition m) (visible m) (data m) (_kartographer_ready m)
    (listeners m) (_static m) (_staticTimer m) (_updatingHash m) x (log m).
Definition set_log (x : list event) (m : KMap V) : KMap V :=
  mkMap (view m) (fallbackZoom m) (link m) (fullscreen m)
    (alwaysInteractive m) (fullScreenRoute m) (layers m) (dataLayers m)
    (_initialPosition m) (visible m) (data m) (_kartographer_ready m)
    (listeners m) (_static m) (_staticTimer m) (_updatingHash m)
    (fullScreenMap m) x.

Definition emit (e : event) (m : KMap V) : KMap V := set_log (log m ++ [e]) m.

End Setters.

(** ** ViewStateController: [initView], [setView], [getHash] *)

Definition precisionPerZoom : list nat :=
  [0; 0; 1; 2; 2; 3; 3; 3; 3; 4; 4; 4; 4; 4; 4; 4; 4; 5; 5]%nat.

(** The [maxZoom] option of the Wikimedia tile layer. *)
Definition maxZoom : Z := 19.

(** [precisionPerZoom[ zoom ]]: [undefined] outside the array. *)
Definition precisionAt (zoom : Z) : option nat :=
  if (zoom <? 0)%Z then None else precisionPerZoom !! Z.to_nat zoom.

(** [L.latLng( [ a, b ] )]. *)
Definition latLng (a b : number Q) : option LatLng :=
  match a, b with
  | Fin x, Fin y => Some (mkLatLng x y)
  | _, _ => None
  end.

(** The first statement of both [initView] and [setView]: an array with
    a [NaN] entry becomes [undefined], any other array an [L.LatLng]. *)
Definition resolveCenter (center : centerArg) : option LatLng :=
  match center with
  | CArray a b =>
      if negb (isNaN (Some a)) && negb (isNaN (Some b)) then latLng a b
      else None
  | CLatLng p => Some p
  | CUndefined => None
  end.

(** [isNaN( zoom ) ? undefined : zoom]. *)
Definition resolveZoom (zoom : zoomArg) : option Z :=
  match zoom with
  | Some (Fin z) => Some z
  | Some NaN | None => None
  end.

(** Back from a remembered position to arguments. *)
Definition centerOf (c : option LatLng) : centerArg :=
  match c with Some p => CLatLng p | None => CUndefined end.
Definition zoomOf (z : option Z) : zoomArg :=
  match z with Some z => Some (Fin z) | None => None end.

Section ViewState.
Context {V : Type} `{Surface V}.

Definition getInitialMapPosition (m : KMap V) : option position :=
  _initialPosition m.

(** [getMapPosition()] without the [scaled] option. *)
Definition getMapPosition (m : KMap V) : LatLng * Z :=
  (wrap (getCenter (view m)), getZoom (view m)).

Definition getScaleLatLng (m : KMap V) (lat lng : Q) (zoom : option Z) : list string :=
  let zoom := match zoom with None => getZoom (view m) | Some z => z end in
  [toFixed lat (precisionAt zoom); toFixed lng (precisionAt zoom)].

Definition getHash (m : KMap V) : string :=
  match _initialPosition m with
  | None => fullScreenRoute m
  | Some initialPosition =>
      let hash := fullScreenRoute m in
      let currentPosition := getMapPosition m in
      let newHash :=
        toString (snd currentPosition) ++ "/" ++
        join_slash (getScaleLatLng m (lat (fst currentPosition))
                      (lng (fst currentPosition)) (Some (snd currentPosition))) in
      let initialHash :=
        match center initialPosition with
        | None => None
        | Some c =>
            Some (toStringU (zoom initialPosition) ++ "/" ++
                  join_slash (getScaleLatLng m (lat c) (lng c) (zoom initialPosition)))
        end in
      if decide (Some newHash <> initialHash) then hash ++ "/" ++ newHash
      else hash
  end.

(** [initView] up to its last statement: normalise the arguments and
    remember them. *)
Definition initView_store (center : centerArg) (zoom : zoomArg) (m : KMap V) : KMap V :=
  set_initialPosition
    (Some (mkPosition (resolveCenter center) (resolveZoom zoom))) m.

(** [this.fullscreen], read by [setView]: the class never assigns it (the
    option is [this.options.fullscreen]), so it is always [undefined]. *)
Definition this_fullscreen : bool := false.

Definition setView (center : centerArg) (zoom : zoomArg) (save : bool) (m : KMap V) : KMap V :=
  let initial := getInitialMapPosition m in
  match resolveCenter center with
  | Some center =>
      let zoom := match resolveZoom zoom with
                  | None => fallbackZoom m
                  | Some z => z
                  end in
      set_view (L_setView center zoom (view m)) m
  | None =>
      let maxBounds := getValidBoundsMap (layers m) in
      let v := match maxBounds with
               | Some b => fitBounds b (view m)
               | None => fitWorld (view m)
               end in
      (* (Re-)Applies expected zoom *)
      let v := match initial with
               | Some (mkPosition _ (Some initial_zoom)) => setZoom initial_zoom v
               | _ => v
               end in
      let m := set_view v m in
      if visible m && save then
        (* this.initView( this.getCenter(), this.getZoom(), false ) *)
        let m := initView_store (CLatLng (getCenter v)) (Some (Fin (getZoom v))) m in
        if negb this_fullscreen then
          set_data (Some (mkAttrs (getZoom v) (lng (getCenter v)) (lat (getCenter v)))) m
        else m
      else m
  end.

(** [initView( center, zoom, setView )]; the third argument defaults to
    [true]. *)
Definition initView (center : centerArg) (zoom : zoomArg) (setView_ : bool) (m : KMap V) : KMap V :=
  let m := initView_store center zoom m in
  if setView_ then
    setView (centerOf (resolveCenter center)) (zoomOf (resolveZoom zoom)) true m
  else m.

End ViewState.

(** ** ResponsiveModeController: [toggleStaticState] *)

Section ResponsiveMode.
Context {V : Type} `{Surface V}.

(** [toggleStaticState()], with [window.innerWidth] as [deviceWidth]. *)
Definition toggleStaticState (deviceWidth : Z) (m : KMap V) : KMap V :=
  let isSmallWindow := (deviceWidth <=? 480)%Z in
  let staticMap := isSmallWindow || (getSizeX (view m) + 200 >? deviceWidth)%Z in
  if decide (_static m = Some staticMap) then m
  else
    let m := set_static (Some staticMap) m in
    let m := if staticMap
             then emit ScrollWheelZoomDisable (emit SleepDisable (emit SleepMap m))
             else emit SleepEnable m in
    emit (ToggleClassStatic staticMap) m.

(** [_invalidateInteractive()]: the sleep handler is added, from now on
    [invalidateSize] is the debounced one below, and the state is computed
    a first time. *)
Definition _invalidateInteractive (deviceWidth : Z) (m : KMap V) : KMap V :=
  toggleStaticState deviceWidth (emit AddHandlerSleep m).

(** [invalidateSize( options )].  The override is installed exactly on the
    maps that went through [_invalidateInteractive]. *)
Definition invalidateSize (m : KMap V) : KMap V :=
  let m := set_view (L_invalidateSize (view m)) m in
  if negb (fullscreen m) && negb (alwaysInteractive m) then
    if fullscreen m then m
    else set_staticTimer true m
  else m.

(** The 200 ms timer that [invalidateSize] left pending runs out. *)
Definition staticTimerFires (deviceWidth : Z) (m : KMap V) : KMap V :=
  if _staticTimer m then toggleStaticState deviceWidth (set_staticTimer false m)
  else m.

(** [invalidateSizeAndSetInitialView()], called when a container that was
    hidden is shown. *)
Definition invalidateSizeAndSetInitialView (m : KMap V) : KMap V :=
  let position := getInitialMapPosition m in
  let m := invalidateSize m in
  match position with
  | Some (mkPosition c z) => initView (centerOf c) (zoomOf z) true m
  | None => m
  end.

End ResponsiveMode.

(** ** DataLayerStore: [addGeoJSONLayer], [addDataGroups], [addDataLayer] *)

(** How a promise of the data manager settles. *)
Inductive settled (A : Type) : Type :=
| Resolved (a : A)
| Rejected.
Arguments Resolved {A} a.
Arguments Rejected {A}.

Definition drawable (f : feature) : option layer :=
  match f with
  | Feature l => Some l
  | Malformed => None
  end.

(** [L.mapbox.featureLayer( geoJson, options )]: a group of the layers of
    all features; it throws ([None]) on a malformed feature. *)
Definition featureLayer (geoJson : geojson) : option layer :=
  LayerGroup <$> mapM drawable geoJson.

(** [$.isEmptyObject( geoJson )]. *)
Definition isEmptyObject (geoJson : geojson) : bool :=
  match geoJson with [] => true | _ :: _ => false end.

Definition inlineDataLayerKey : string := "kartographer-inline-data-layer".

Section DataLayers.
Context {V : Type} `{Surface V}.

Definition addGeoJSONLayer (groupId : string) (geoJson : geojson)
    (options : layerOptions) (m : KMap V) : KMap V :=
  match featureLayer geoJson with
  | Some layer =>
      let m := set_layers (layers m ++ [layer]) m in
      let m := emit (AddAttribution (opt_attribution options)) m in
      set_dataLayers (<[groupId := mkDataLayer geoJson options layer]> (dataLayers m)) m
  | None => emit LogException m
  end.

(** The body of the [$.each] loop of [addDataGroups]. *)
Definition addGroup (m : KMap V) (group : group) : KMap V :=
  let layerOptions :=
    mkLayerOptions (attribution group)
      (if isExternal group then Some (attribution group) else None) in
  if negb (isEmptyObject (getGeoJSON group)) then
    addGeoJSONLayer (id group) (getGeoJSON group) layerOptions m
  else emit (LogWarn (id group)) m.

(** [addDataGroups( dataGroups )]; [loadGroups] is how the one call of
    the data manager settles.  The result is how the returned promise
    settles, with the map at that time. *)
Definition addDataGroups (dataGroups : option (list string))
    (loadGroups : settled (list group)) (m : KMap V) : settled unit * KMap V :=
  match dataGroups with
  | None | Some [] => (Resolved tt, m)
  | Some dataGroups =>
      let m := emit (LoadGroups dataGroups) m in
      match loadGroups with
      | Resolved groups => (Resolved tt, fold_left addGroup groups m)
      | Rejected => (Rejected, m)
      end
  end.

(** The body of the [$.each] loop of [addDataLayer], with the counter
    [inlineDataLayerId] of the module threaded through.  [initialize]
    passes no options, so the attribution is that of the group. *)
Definition addInlineGroup (st : KMap V * nat) (group : group) : KMap V * nat :=
  let (m, inlineDataLayerId) := st in
  let groupId := inlineDataLayerKey ++ pretty inlineDataLayerId in
  let layerOptions :=
    mkLayerOptions (attribution group)
      (if isExternal group then Some (attribution group) else None) in
  (if negb (isEmptyObject (getGeoJSON group)) then
     addGeoJSONLayer groupId (getGeoJSON group) layerOptions m
   else emit (LogWarn groupId) m,
   S inlineDataLayerId).

Definition addDataLayer (load : settled (list group)) (st : KMap V * nat)
    : settled unit * (KMap V * nat) :=
  let st := (emit LoadInline (fst st), snd st) in
  match load with
  | Resolved dataGroups => (Resolved tt, fold_left addInlineGroup dataGroups st)
  | Rejected => (Rejected, st)
  end.

End DataLayers.

(** ** Construction and the full screen dialog *)

(** The options of [initialize].  [container] is the Leaflet map built on
    [options.container], which has no center and no zoom yet. *)
Record options (V : Type) : Type := mkOptions {
  container : V;
  container_visible : bool;
  container_data : option attrs;
  o_center : centerArg;
  o_zoom : zoomArg;
  o_dataGroups : option (list string);
  o_data : option geojson;
  o_alwaysInteractive : bool;
  o_fullscreen : bool;
  o_link : bool;
  o_fullScreenRoute : string;
  o_fallbackZoom : Z;
  o_parentMap : option (KMap V)
}.
Arguments mkOptions {V}.
Arguments container {V}.
Arguments container_visible {V}.
Arguments container_data {V}.
Arguments o_center {V}.
Arguments o_zoom {V}.
Arguments o_dataGroups {V}.
Arguments o_data {V}.
Arguments o_alwaysInteractive {V}.
Arguments o_fullscreen {V}.
Arguments o_link {V}.
Arguments o_fullScreenRoute {V}.
Arguments o_fallbackZoom {V}.
Arguments o_parentMap {V}.

Section FullScreen.
Context {V : Type} `{Surface V}.

(** [initialize] down to "Initialize map": the fields, the tile layer
    and, unless the map is full screen or always interactive, the first
    [toggleStaticState]. *)
Definition newMap (deviceWidth : Z) (o : options V) : KMap V :=
  let m :=
    mkMap (container o) (o_fallbackZoom o) (o_link o) (o_fullscreen o)
      (o_alwaysInteractive o) (o_fullScreenRoute o) [TileLayer] ∅ None
      (container_visible o) (container_data o) false [] None false false
      None [] in
  if negb (o_fullscreen o) && negb (o_alwaysInteractive o)
  then _invalidateInteractive deviceWidth m
  else m.

(** The [$.each] over [this.parentMap.dataLayers].  (The fold visits the
    groups in the order of their keys, [$.each] in the order in which they
    were registered: the order of the child's layers and attributions can
    differ, its registry cannot.) *)
Definition copyLayers (parentMap : KMap V) (m : KMap V) : KMap V :=
  map_fold (fun groupId layer m =>
              addGeoJSONLayer groupId (layer_geoJSON layer) (layer_options layer) m)
           m (dataLayers parentMap).

(** [ready()] on a map nobody has had a chance to listen to yet:
    [initView], then the first listener of [kartographerisready], which
    sets the flag. *)
Definition ready_core (o : options V) (m : KMap V) : KMap V :=
  set_kartographer_ready true (initView (o_center o) (o_zoom o) true m).

(** The synchronous part of [initialize].  With a parent map the layers
    are copied and the map is ready on return; otherwise it waits for
    [addDataGroups]. *)
Definition initialize_sync (deviceWidth : Z) (o : options V) : KMap V :=
  let m := newMap deviceWidth o in
  match o_parentMap o with
  | Some parentMap => ready_core o (copyLayers parentMap m)
  | None => m
  end.

(** The options [openFullScreen] builds for the child map.  Its container
    is a [div] that is not in the document yet. *)
Definition childOptions (this : KMap V) (position : positionArg) : options V :=
  mkOptions dialogView false None (pcenter position) (pzoom position)
    None None false true false (fullScreenRoute this) (fallbackZoom this)
    (Some this).

(** [position || this.getMapPosition()] *)
Definition positionOrCurrent (position : option positionArg) (this : KMap V) : positionArg :=
  match position with
  | Some p => p
  | None => let (c, z) := getMapPosition this in
            mkPositionArg (CLatLng c) (Some (Fin z))
  end.

(** The callback that [openFullScreen] hands to [doWhenReady]. *)
Definition openFullScreen_ready (deviceWidth : Z) (position : option positionArg)
    (this : KMap V) : KMap V :=
  let position := positionOrCurrent position this in
  let render (m : KMap V) := emit RenderDialog m in
  if link this then
    (* map = this *)
    if _updatingHash this then set_updatingHash false this
    else render (setView (pcenter position) (pzoom position) false this)
  else
    match fullScreenMap this with
    | None =>
        let map := initialize_sync deviceWidth (childOptions this position) in
        let this := set_fullScreenMap (Some map) (emit NewKartographerMap this) in
        match _initialPosition this with
        | Some (mkPosition c z) =>
            (* resets the right initial position silently afterwards *)
            let map := initView (centerOf c) (zoomOf z) false map in
            render (set_fullScreenMap (Some map) this)
        | None =>
            (* reading [center] off [undefined] throws and ends the
               callback; a ready map always has an initial position *)
            this
        end
    | Some map =>
        if _updatingHash map then
          set_fullScreenMap (Some (set_updatingHash false map)) this
        else
          render (set_fullScreenMap
                    (Some (setView (pcenter position) (pzoom position) false map))
                    this)
    end.

Definition run (deviceWidth : Z) (m : KMap V) (cb : callback) : KMap V :=
  match cb with
  | OpenFullScreen position => openFullScreen_ready deviceWidth position m
  end.

(** [doWhenReady( callback, this )] *)
Definition doWhenReady (deviceWidth : Z) (cb : callback) (m : KMap V) : KMap V :=
  if _kartographer_ready m then run deviceWidth m cb
  else set_listeners (listeners m ++ [cb]) m.

Definition openFullScreen (deviceWidth : Z) (position : option positionArg)
    (m : KMap V) : KMap V :=
  doWhenReady deviceWidth (OpenFullScreen position) m.

(** [this.fire( 'kartographerisready' )]: the listener of [initialize]
    sets the flag, then the callbacks of [doWhenReady] run. *)
Definition fire_kartographerisready (deviceWidth : Z) (m : KMap V) : KMap V :=
  fold_left (run deviceWidth) (listeners m) (set_kartographer_ready true m).

(** The local function [ready] of [initialize]. *)
Definition ready (deviceWidth : Z) (o : options V) (m : KMap V) : KMap V :=
  fire_kartographerisready deviceWidth (initView (o_center o) (o_zoom o) true m).

(** The callbacks of [this.addDataGroups( options.dataGroups ).then( ... )]
    once the promises of the data manager have settled: [loadGroups] for
    the groups, [load] for the inline data. *)
Definition initialize_async (deviceWidth : Z) (o : options V)
    (loadGroups load : settled (list group)) (st : KMap V * nat) : KMap V * nat :=
  let (m, inlineDataLayerId) := st in
  match addDataGroups (o_dataGroups o) loadGroups m with
  | (Resolved _, m) =>
      match o_data o with
      | Some _ =>
          match addDataLayer load (m, inlineDataLayerId) with
          | (Resolved _, (m, n)) => (ready deviceWidth o m, n)
          | (Rejected, st) => st
          end
      | None => (ready deviceWidth o m, inlineDataLayerId)
      end
  | (Rejected, m) => (emit LogError (ready deviceWidth o m), inlineDataLayerId)
  end.

(** [new KartographerMap( options )] with everything it starts run to
    the end.  The constructor throws when no map server is configured. *)
Definition initialize (wgKartographerMapServer : option string) (deviceWidth : Z)
    (o : options V) (loadGroups load : settled (list group))
    (inlineDataLayerId : nat) : option (KMap V * nat) :=
  match wgKartographerMapServer with
  | None | Some "" => None
  | Some _ =>
      let m := initialize_sync deviceWidth o in
      match o_parentMap o with
      | Some _ => Some (m, inlineDataLayerId)
      | None => Some (initialize_async deviceWidth o loadGroups load (m, inlineDataLayerId))
      end
  end.

End FullScreen.

(** ** Notions used to state the properties *)

Section Notions.
Context {V : Type} `{Surface V}.

(** A position as the hash prints it: the zoom, and the coordinates
    rounded at the precision of that zoom. *)
Definition scaledPosition (m : KMap V) (c : LatLng) (zoom : option Z)
    : option Z * list string :=
  (zoom, getScaleLatLng m (lat c) (lng c) zoom).

(** The part of the route that [getHash] appends for the current
    position. *)
Definition positionSuffix (m : KMap V) : string :=
  let (c, z) := getMapPosition m in
  "/" ++ toString z ++ "/" ++ toFixed (lat c) (precisionAt z)
      ++ "/" ++ toFixed (lng c) (precisionAt z).

(** The view that the auto-fit of [setView] computes before any zoom is
    reapplied. *)
Definition fitted (m : KMap V) : V :=
  match getValidBoundsMap (layers m) with
  | Some b => fitBounds b (view m)
  | None => fitWorld (view m)
  end.

(** The mode [toggleStaticState] computes. *)
Definition staticRule (deviceWidth : Z) (v : V) : bool :=
  (deviceWidth <=? 480)%Z || (getSizeX v + 200 >? deviceWidth)%Z.

End Notions.

(** Calls that ask the data manager for data. *)
Definition isFetch (e : event) : bool :=
  match e with
  | LoadGroups _ | LoadInline => true
  | _ => false
  end.

(** Constructions of a child map. *)
Definition isConstruction (e : event) : bool :=
  match e with
  | NewKartographerMap => true
  | _ => false
  end.

(** A resolved group that [addDataGroups] turns into a layer: its
    geometry is not empty and can be drawn. *)
Definition yieldsLayer (g : group) : bool :=
  negb (isEmptyObject (getGeoJSON g))
  && bool_decide (is_Some (featureLayer (getGeoJSON g))).


(** A small surface to run the controller on: the view is a center, a
    zoom and the width of the container; fitting bounds centers on their
    middle at zoom 10, fitting the world shows (0, 0) at zoom 0. *)
Record sampleView : Type := mkSampleView {
  sv_center : LatLng;
  sv_zoom : Z;
  sv_width : Z
}.

#[export] Instance sampleSurface : Surface sampleView := {
  L_setView c z v := mkSampleView c z (sv_width v);
  fitBounds b v :=
    mkSampleView
      (mkLatLng ((lat (southWest b) + lat (northEast b)) / 2)
                ((lng (southWest b) + lng (northEast b)) / 2))
      10 (sv_width v);
  fitWorld v := mkSampleView (mkLatLng 0 0) 0 (sv_width v);
  setZoom z v := mkSampleView (sv_center v) z (sv_width v);
  getCenter := sv_center;
  getZoom := sv_zoom;
  wrap p := p;
  getSizeX := sv_width;
  L_invalidateSize v := v;
  dialogView := mkSampleView (mkLatLng 0 0) 0 1280
}.

(** A map frame as [mapframe.js] builds it, once ready and placed. *)
Definition sampleMap (c : LatLng) (z : Z) (initial : option position) : KMap sampleView :=
  mkMap (mkSampleView c z 400) 13 false false false "/map/0" [TileLayer] ∅
    initial true None true [] (Some false) false false None [].

(** The Eiffel tower, and two initial positions for a map showing it at
    zoom 12: one that rounds to the same four decimals, one that does not. *)
Definition eiffel : LatLng := mkLatLng (4885837 # 100000) (229448 # 100000).
Definition initialNear : position :=
  mkPosition (Some (mkLatLng (4885841 # 100000) (229452 # 100000))) (Some 12%Z).
Definition initialFar : position :=
  mkPosition (Some (mkLatLng (4885911 # 100000) (229452 # 100000))) (Some 12%Z).
Definition initialNoCenter : position := mkPosition None (Some 12%Z).

(** A visible map frame that remembers an initial position without a
    zoom, and one that remembers the Eiffel tower at zoom 12. *)
Definition mapWithoutZoom : KMap sampleView :=
  sampleMap eiffel 12 (Some (mkPosition None None)).
Definition mapAtEiffel : KMap sampleView :=
  sampleMap eiffel 12 (Some initialNear).

(** The same map frame inside a collapsed section: its container is not
    visible. *)
Definition hiddenMap : KMap sampleView :=
  mkMap (mkSampleView eiffel 12 400) 13 false false false "/map/0"
    [TileLayer] ∅
    (Some initialNear) false None true [] (Some false) false false None [].

(** A map frame 400 px wide that has not computed its mode yet. *)
Definition freshFrame : KMap sampleView :=
  mkMap (mkSampleView eiffel 12 400) 13 false false false "/map/0"
    [TileLayer] ∅
    None true None false [] None false false None [].

(** Three data groups as the data manager resolves them: a marker, a
    line, and one that came back without geometry. *)
Definition towerGroup : group :=
  mkGroup "tower" "OpenStreetMap" false [Feature (Marker eiffel)].
Definition riverGroup : group :=
  mkGroup "river" "Wikidata" true
    [Feature (Polyline (mkLatLng (4883 # 100) (225 # 100), [mkLatLng (4886 # 100) (235 # 100)]))].
Definition missingGroup : group := mkGroup "missing" "" false [].

(** The options of a map frame with these three overlays. *)
Definition frameOptions : options sampleView :=
  mkOptions (mkSampleView (mkLatLng 0 0) 0 400) true None
    (CArray (Fin (4885837 # 100000)) (Fin (229448 # 100000))) (Some (Fin 12%Z))
    (Some ["tower"; "river"; "missing"]) None false false false "/map/0" 13 None.

(** That map frame, ready, with its two data layers. *)
Definition readyFrame : KMap sampleView :=
  match initialize (Some "https://maps.wikimedia.org") 1280 frameOptions
          (Resolved [towerGroup; riverGroup; missingGroup]) Rejected 0 with
  | Some (m, _) => m
  | None => freshFrame
  end.

(** A geomask as the server writes it: the outer ring runs far beyond the
    world, the hole is a triangle near the origin. *)
Definition geomask_outer : ring :=
  (mkLatLng (-180) 3600,
   [mkLatLng 180 3600; mkLatLng 180 (-3600); mkLatLng (-180) (-3600)]).
Definition geomask_hole : ring :=
  (mkLatLng 1 2, [mkLatLng 3 5; mkLatLng 2 8]).

(** A two-ring polygon whose outer ring lies exactly on the world
    envelope. *)
Definition envelope_ring : ring :=
  (mkLatLng (-90) (-180),
   [mkLatLng (-90) 180; mkLatLng 90 180; mkLatLng 90 (-180)]).

(** A map frame in a collapsed section, built without center or zoom:
    nothing could be persisted while it was hidden. *)
Definition collapsedFrame : KMap sampleView :=
  mkMap (mkSampleView (mkLatLng 0 0) 0 400) 13 false false false "/map/0"
    [TileLayer; LayerGroup [Marker eiffel]] ∅
    (Some (mkPosition None None)) false None true [] (Some false) false false None [].

(** The same frame once the section is expanded. *)
Definition expandedFrame : KMap sampleView :=
  mkMap (mkSampleView (mkLatLng 0 0) 0 400) 13 false false false "/map/0"
    [TileLayer; LayerGroup [Marker eiffel]] ∅
    (Some (mkPosition None None)) true None true [] (Some false) false false None [].

(** * Further notions, for the rest of the code *)

(** A position inside the world envelope. *)
Definition pointInWorld (p : LatLng) : bool :=
  contains worldLatLng (mkBox p p).

(** The positions of a leaf layer. *)
Definition positions (l : layer) : list LatLng :=
  match l with
  | Marker p => [p]
  | Polyline path => points path
  | Polygon outer holes => flat_map points (outer :: holes)
  | LayerGroup _ | TileLayer => []
  end.

(** Whether a possibly empty bounds lies inside the world; an empty one
    does. *)
Definition fits (b : LatLngBounds) : bool :=
  match b with
  | Some u => contains worldLatLng u
  | None => true
  end.

(** Whether a layer contributes to the fitted bounds. *)
Definition contributes (l : layer) : bool := isValid (getValidBounds l).

(** A line that leaves the world, and a tree of layers: a marker, a
    group holding a geomask and that line, and the tile layer. *)
Definition strayLine : ring :=
  (mkLatLng 10 170, [mkLatLng 12 190]).
Definition sampleTree : layer :=
  LayerGroup
    [Marker eiffel;
     LayerGroup [Polygon geomask_outer [geomask_hole]; Polyline strayLine];
     TileLayer].

(** The zoom of the remembered initial position, reapplied after a fit. *)
Definition reapplyInitialZoom {V : Type} `{Surface V} (m : KMap V) (v : V) : V :=
  match _initialPosition m with
  | Some (mkPosition _ (Some initial_zoom)) => setZoom initial_zoom v
  | _ => v
  end.

(** A visible frame holding the layers of [sampleTree], built without
    center or zoom. *)
Definition treeFrame : KMap sampleView :=
  mkMap (mkSampleView (mkLatLng 0 0) 0 400) 13 false false false "/map/0"
    [TileLayer; sampleTree] ∅
    (Some (mkPosition None None)) true None true [] (Some false) false false None [].

(** The part of a map that only construction and the responsive mode
    decide. *)
Definition control {V : Type} (m : KMap V)
    : bool * bool * bool * string * Z * option bool * bool :=
  (fullscreen m, alwaysInteractive m, link m, fullScreenRoute m,
   fallbackZoom m, _static m, _staticTimer m).

(** What happens to the size of a map over time: the window is resized
    ([invalidateSize] is called), or the timer of the last resize runs out
    while the window is [deviceWidth] wide. *)
Inductive sizeEvent : Type :=
| Resized
| TimerRunsOut (deviceWidth : Z).

Definition sizeStep {V : Type} `{Surface V} (m : KMap V) (e : sizeEvent) : KMap V :=
  match e with
  | Resized => invalidateSize m
  | TimerRunsOut deviceWidth => staticTimerFires deviceWidth m
  end.

Definition sizeRun {V : Type} `{Surface V} (es : list sizeEvent) (m : KMap V) : KMap V :=
  fold_left sizeStep es m.

(** The full screen child of [readyFrame]. *)
Definition dialogMap : KMap sampleView :=
  default freshFrame (fullScreenMap (openFullScreen 1280 None readyFrame)).

(** How far a map has come: its readiness, what it remembers and who
    waits for it. *)
Definition progress {V : Type} (m : KMap V)
    : bool * option position * list callback * bool :=
  (_kartographer_ready m, _initialPosition m, listeners m, _updatingHash m).

(** The key under which [addDataLayer] registers its [i]-th layer. *)
Definition inlineKey (i : nat) : string := inlineDataLayerKey ++ pretty i.

(** No inline layer is registered under a number from [n] on. *)
Definition freshFrom {V : Type} (n : nat) (m : KMap V) : Prop :=
  forall i : nat, (n <= i)%nat -> dataLayers m !! inlineKey i = None.

(** The layers of the features of a GeoJSON object that can be drawn. *)
Definition drawn (geoJson : geojson) : list layer := omap drawable geoJson.

(** [freshFrame] once its view is placed, just before it reports ready. *)
Definition placedFrame : KMap sampleView :=
  initView (CLatLng eiffel) (Some (Fin 12%Z)) true freshFrame.

(** A GeoJSON object with a feature that cannot be drawn. *)
Definition brokenGeoJSON : geojson := [Feature (Marker eiffel); Malformed].

Definition isMalformed (f : feature) : bool :=
  match f with
  | Malformed => true
  | Feature _ => false
  end.

(** A link map ([options.link] set): a map that is its own full screen
    target. *)
Definition linkMap : KMap sampleView :=
  mkMap (mkSampleView eiffel 12 1280) 13 true true false "/maplink/0" [TileLayer] ∅
    (Some initialNear) true None true [] None false false None [].

(** The options of a frame that also carries inline data. *)
Definition inlineOptions : options sampleView :=
  mkOptions (mkSampleView (mkLatLng 0 0) 0 400) true None
    (CArray (Fin (4885837 # 100000)) (Fin (229448 # 100000))) (Some (Fin 12%Z))
    (Some ["tower"]) (Some [Feature (Marker eiffel)]) false false false "/map/1" 13 None.

(** * The frames of a page: [mapframe.js] *)

(** What [getMapData] reads off a [<mapframe>] element, as far as the map
    keeps it: the unary plus turns a missing attribute into [NaN]. *)
Record mapData : Type := mkMapData {
  latitude : number Q;
  longitude : number Q;
  md_zoom : number Z;
  overlays : list string
}.

(** The container of a frame: the Leaflet map built on it, whether it is
    visible, and the position attributes it carries. *)
Record frameContainer (V : Type) : Type := mkFrameContainer {
  el_view : V;
  el_visible : bool;
  el_data : option attrs
}.
Arguments mkFrameContainer {V}.
Arguments el_view {V}.
Arguments el_visible {V}.
Arguments el_data {V}.

(** The value of a decimal digit. *)
Definition digitValue (c : ascii) : option N :=
  if is_digit c then Some (N.of_nat (nat_of_ascii c - 48)) else None.

Fixpoint parseDigits (acc : N) (s : string) : option N :=
  match s with
  | EmptyString => Some acc
  | String c s' =>
      match digitValue c with
      | Some d => parseDigits (10 * acc + d) s'
      | None => None
      end
  end.

(** The element that [maps[ key ]] reads for a string key: a string is an
    index of the array only when it is the decimal numeral of a number,
    without leading zeros. *)
Definition arrayIndex (key : string) : option nat :=
  match key with
  | EmptyString => None
  | _ =>
      match parseDigits 0 key with
      | Some n => if String.eqb (pretty n) key then Some (N.to_nat n) else None
      | None => None
      end
  end.

Section Frames.
Context {V : Type} `{Surface V}.

(** The options [initMapBox] passes to [kartobox.map]. *)
Definition mapBoxOptions (wgKartographerFallbackZoom : Z) (index : nat)
    (data : mapData) (container : frameContainer V) : options V :=
  mkOptions (el_view container) (el_visible container) (el_data container)
    (CArray (latitude data) (longitude data)) (Some (md_zoom data))
    (Some (overlays data)) None false false false
    ("/map/" ++ pretty index) wgKartographerFallbackZoom None.

(** [initMapBox( data, $container )], with a map server configured: the
    new map takes the next index of [maps]. *)
Definition initMapBox (wgKartographerFallbackZoom deviceWidth : Z)
    (data : mapData) (container : frameContainer V) (maps : list (KMap V))
    : list (KMap V) * KMap V :=
  let index := length maps in
  let map :=
    initialize_sync deviceWidth
      (mapBoxOptions wgKartographerFallbackZoom index data container) in
  ((maps ++ [map])%list, map).

(** The position the route callback hands to [openFullScreen]: the one of
    the route when zoom, latitude and longitude are all there, the
    remembered initial position of the map otherwise. *)
Definition routePosition (zoom : option Z) (latitude longitude : option Q)
    (map : KMap V) : option positionArg :=
  match zoom, latitude, longitude with
  | Some z, Some la, Some lo =>
      Some (mkPositionArg (CArray (Fin la) (Fin lo)) (Some (Fin z)))
  | _, _, _ =>
      match getInitialMapPosition map with
      | Some (mkPosition c z) => Some (mkPositionArg (centerOf c) (zoomOf z))
      | None => None
      end
  end.

(** The callback of [router.route].  [maptagId] is the text of the first
    group of the pattern; the other groups come as the numbers the unary
    plus makes of them.  The second component is the argument of
    [router.navigate] when it is called. *)
Definition onRoute (deviceWidth : Z) (maptagId : string) (zoom : option Z)
    (latitude longitude : option Q) (maps : list (KMap V))
    : list (KMap V) * option string :=
  match arrayIndex maptagId with
  | Some index =>
      match maps !! index with
      | Some map =>
          (<[index := openFullScreen deviceWidth
                        (routePosition zoom latitude longitude map) map]> maps,
           None)
      | None => (maps, Some "")
      end
  | None => (maps, Some "")
  end.

(** The data groups of the frame at [index] have settled: the callbacks
    of its promise run on the map in the registry.  (A frame has no inline
    data, so the counter of inline layers plays no part.) *)
Definition frameLoaded (wgKartographerFallbackZoom deviceWidth : Z) (index : nat)
    (data : mapData) (container : frameContainer V)
    (loadGroups : settled (list group)) (maps : list (KMap V)) : list (KMap V) :=
  match maps !! index with
  | Some map =>
      <[index := fst (initialize_async deviceWidth
                        (mapBoxOptions wgKartographerFallbackZoom index data container)
                        loadGroups Rejected (map, 0%nat))]> maps
  | None => maps
  end.

(** Every registered map has the route of its index. *)
Definition routesMatch (maps : list (KMap V)) : Prop :=
  forall (i : nat) (m : KMap V),
    maps !! i = Some m -> fullScreenRoute m = "/map/" ++ pretty i.

End Frames.

(** Two frames of a page: one with center and zoom, one with neither. *)
Definition firstFrameData : mapData :=
  mkMapData (Fin (4885837 # 100000)) (Fin (229448 # 100000)) (Fin 12%Z) ["tower"].
Definition secondFrameData : mapData := mkMapData NaN NaN NaN [].
Definition frameElement : frameContainer sampleView :=
  mkFrameContainer (mkSampleView (mkLatLng 0 0) 0 400) true None.

(** The registry after both frames are built and their data groups have
    settled. *)
Definition pageMaps : list (KMap sampleView) :=
  let maps := fst (initMapBox 13 1280 firstFrameData frameElement []) in
  let maps := fst (initMapBox 13 1280 secondFrameData frameElement maps) in
  let maps := frameLoaded 13 1280 1 secondFrameData frameElement Rejected maps in
  frameLoaded 13 1280 0 firstFrameData frameElement (Resolved [towerGroup]) maps.

(** * The link tag: [MapLink::extractMarkerCss] *)

Definition isHexDigit (c : ascii) : bool :=
  let n := nat_of_ascii c in
  is_digit c
  || ((97 <=? n)%nat && (n <=? 102)%nat)
  || ((65 <=? n)%nat && (n <=? 70)%nat).

(** A string without its last character, when that is a line feed: in a
    PHP pattern [$] also matches just before a line feed that ends the
    subject. *)
Fixpoint beforeFinalNewline (s : string) : string :=
  match s with
  | EmptyString => EmptyString
  | String c EmptyString => if Ascii.eqb c "010" then EmptyString else s
  | String c s' => String c (beforeFinalNewline s')
  end.

(** [preg_match( '/^#?(([0-9a-fA-F]{3}){1,2})$/', $color, $m )]: the
    first group, [$m[1]], when the pattern matches. *)
Definition matchMarkerColor (color : string) : option string :=
  let rest := match color with
              | String "#" r => r
              | _ => color
              end in
  let digits := beforeFinalNewline rest in
  if all_chars isHexDigit digits
     && ((String.length digits =? 3)%nat || (String.length digits =? 6)%nat)
  then Some digits else None.

(** [extractMarkerCss()]: [markerProperties] is the object of the marker's
    properties, or [null]. *)
Definition extractMarkerCss (wgKartographerUseMarkerStyle : bool)
    (markerProperties : option (gmap string string)) : string :=
  match markerProperties with
  | Some properties =>
      if wgKartographerUseMarkerStyle then
        match properties !! "marker-color" with
        | Some color =>
            match matchMarkerColor color with
            | Some m1 => "background: #" ++ m1 ++ ";"
            | None => ""
            end
        | None => ""
        end
      else ""
  | None => ""
  end.

(** * The tile scale: [bracketDevicePixelRatio] *)

(** The number [0.1] of the source: the double nearest to one tenth. *)
Definition oneTenth : Q := 3602879701896397 # 36028797018963968.

(** The loop of [bracketDevicePixelRatio]: the first scale that is at
    least the ratio, or less than 0.1 below it. *)
Fixpoint firstBracket (baseRatio : Q) (brackets : list Q) : option Q :=
  match brackets with
  | [] => None
  | scl :: rest =>
      if Qle_bool baseRatio scl || negb (Qle_bool oneTenth (baseRatio - scl)%Q)
      then Some scl
      else firstBracket baseRatio rest
  end.

(** [bracketDevicePixelRatio()]: [brackets] is [wgKartographerSrcsetScales]
    and [devicePixelRatio] the ratio of the window, [undefined] or a number.
    The second component is the array of the configuration afterwards: the
    function puts a 1 in front of it.  (Differences are taken exactly; for
    scales of 1 and more that is what the subtraction of doubles gives
    wherever the comparison with 0.1 can turn.) *)
Definition bracketDevicePixelRatio (brackets : option (list Q))
    (devicePixelRatio : option (number Q)) : Q * option (list Q) :=
  let baseRatio :=
    match devicePixelRatio with
    | Some (Fin r) => if Qeq_bool r 0 then 1%Q else r
    | Some NaN | None => 1%Q
    end in
  match brackets with
  | None => (1%Q, None)
  | Some brackets =>
      let brackets := 1%Q :: brackets in
      (match firstBracket baseRatio brackets with
       | Some scl => scl
       | None => List.last brackets 1%Q
       end,
       Some brackets)
  end.

(** The scales of the Wikimedia configuration. *)
Definition srcsetScales : list Q :=
  [13 # 10; 15 # 10; 2 # 1; 26 # 10; 3 # 1]%Q.

(** ** The pattern of the route

    The route of [mapframe.js] reads a hash with the pattern
    [map/([0-9]+)(?:/([0-9]+))?(?:/([+-]?\d+\.?\d{0,5})?/([+-]?\d+\.?\d{0,5})?)?]. *)

Fixpoint dropDigits (s : string) : string :=
  match s with
  | String c rest => if is_digit c then dropDigits rest else s
  | EmptyString => s
  end.

(** Whether [[0-9]+] reads the whole of [s]. *)
Definition matchesNumber (s : string) : bool :=
  match s with
  | EmptyString => false
  | String _ _ => all_chars is_digit s
  end.

(** Whether [[+-]?\d+\.?\d{0,5}] reads the whole of [s]. *)
Definition matchesCoordinate (s : string) : bool :=
  let unsigned :=
    match s with
    | String c rest => if Ascii.eqb c "+" || Ascii.eqb c "-" then rest else s
    | EmptyString => s
    end in
  let rest := dropDigits unsigned in
  (String.length rest <? String.length unsigned)%nat
  && match rest with
     | EmptyString => true
     | String c decimals =>
         Ascii.eqb c "." && all_chars is_digit decimals
         && (String.length decimals <=? 5)%nat
     end.

(** ** The wheel zoom handler

    The calls of a log that are made on the handler [scrollWheelZoom].  The
    class has one such call, [scrollWheelZoom.disable()] in the static
    branch of [toggleStaticState]; none of its methods calls
    [scrollWheelZoom.enable()]. *)
Definition onScrollWheelZoom (e : event) : bool :=
  match e with
  | ScrollWheelZoomDisable => true
  | _ => false
  end.

(** Whether [scrollWheelZoom] is enabled after the calls of a log, as far
    as the calls of the class itself go, when it was [enabled] before: a
    [disable()] clears it and no call sets it.  (What the sleep handler of
    Leaflet.Sleep does to wheel zoom when the user wakes the map is not a
    call of the class.) *)
Definition wheelZoomEnabled (enabled : bool) (calls : list event) : bool :=
  enabled && negb (existsb onScrollWheelZoom calls).

(** * Verification *)

(** ** Printing numbers *)

Example toFixed_1 : toFixed (1234567 # 100000) (Some 2%nat) = "12.35".
Proof. reflexivity. Qed.
Example toFixed_2 : toFixed (- (3 # 10)) None = "-0".
Proof. reflexivity. Qed.
Example toFixed_3 : toFixed (5 # 1000) (Some 2%nat) = "0.01".
Proof. reflexivity. Qed.
Example toFixed_4 : toFixed (- (1223344 # 10000)) (Some 5%nat) = "-122.33440".
Proof. reflexivity. Qed.
Example toFixed_5 : toFixed (5 # 2) (Some 0%nat) = "3".
Proof. reflexivity. Qed.


(** *** Properties of the bounds fitter *)

Lemma extend_None_bounds (b : LatLngBounds) : extend None (VBounds b) = b.
Proof. destruct b as [[sw ne]|]; reflexivity. Qed.

Lemma boundsOfRings_single (r : ring) :
  boundsOfRings [r] None = boundsOf (points r) None.
Proof. unfold boundsOfRings; simpl. apply extend_None_bounds. Qed.

(** The world envelope, spelled out on the corners of a rectangle. *)
Lemma contains_world_spec (b : box) :
  contains worldLatLng b = true <->
  (-90 <= lat (southWest b) /\ lat (northEast b) <= 90 /\
   -180 <= lng (southWest b) /\ lng (northEast b) <= 180)%Q.
Proof.
  destruct b as [sw ne]; unfold contains; simpl.
  rewrite !andb_true_iff, !Qle_bool_iff. tauto.
Qed.

Lemma validateBounds_mask (outer : ring) (holes : list ring) :
  inWorld (VBounds (boundsOf (flat_map points (outer :: holes)) None)) = false ->
  holes <> [] ->
  validateBounds (Polygon outer holes) =
    if inWorld (VBounds (boundsOfRings holes None))
    then VBounds (boundsOfRings holes None) else VFalse.
Proof.
  intros Hown Hholes. unfold validateBounds.
  cbn [getBounds getLatLngs]. rewrite Hown.
  destruct holes as [|h hs]; [congruence | reflexivity].
Qed.

(** C3.  A polygon whose own bounding box is not inside the world envelope
    and that has more than one ring is validated on the bounds of all its
    rings but the first: it is accepted, with exactly those bounds, when
    they lie inside the envelope, and rejected otherwise.  For an outer ring
    and one second ring inside the envelope, both [validateBounds] and
    [getValidBounds] return the bounding box of the second ring alone. *)
Theorem mask_polygon_bounds (outer : ring) (holes : list ring) :
  inWorld (VBounds (boundsOf (flat_map points (outer :: holes)) None)) = false ->
  (1 < length (getLatLngs outer holes))%nat ->
  let sub := boundsOfRings (drop 1 (getLatLngs outer holes)) None in
  (validateBounds (Polygon outer holes) = VBounds sub /\ inWorld (VBounds sub) = true
   \/ validateBounds (Polygon outer holes) = VFalse /\ inWorld (VBounds sub) = false)
  /\ (validateBounds (Polygon outer holes) <> VFalse <-> inWorld (VBounds sub) = true)
  /\ (forall second : ring,
        holes = [second] ->
        inWorld (VBounds (boundsOf (points second) None)) = true ->
        validateBounds (Polygon outer holes) = VBounds (boundsOf (points second) None)
        /\ getValidBounds (Polygon outer holes) = boundsOf (points second) None).
Proof.
  intros Hown Hlen sub.
  assert (Hholes : holes <> []) by (destruct holes; [simpl in Hlen; lia | discriminate]).
  pose proof (validateBounds_mask outer holes Hown Hholes) as Hv.
  change (boundsOfRings holes None) with sub in Hv.
  split; [|split].
  - destruct (inWorld (VBounds sub)) eqn:Hin; [left | right]; split; congruence.
  - rewrite Hv. destruct (inWorld (VBounds sub)); split; congruence.
  - intros second Hsecond Hin. subst holes. cbn [getValidBounds]. rewrite Hv.
    subst sub. cbn [getLatLngs drop]. rewrite boundsOfRings_single, Hin.
    split; [reflexivity | apply extend_None_bounds].
Qed.

Lemma mask_polygon_bounds_witness :
  validateBounds (Polygon geomask_outer [geomask_hole])
    = VBounds (Some (mkBox (mkLatLng 1 2) (mkLatLng 3 8)))
  /\ getValidBounds (Polygon geomask_outer [geomask_hole])
    = Some (mkBox (mkLatLng 1 2) (mkLatLng 3 8)).
Proof.
  destruct (mask_polygon_bounds geomask_outer [geomask_hole]) as (_ & _ & H).
  - reflexivity.
  - simpl; lia.
  - exact (H geomask_hole eq_refl eq_refl).
Defined.

(** An outer ring that lies exactly on the envelope passes the first test:
    the polygon is returned with its own bounds, not as a mask. *)
Example envelope_ring_is_no_mask :
  validateBounds (Polygon envelope_ring [geomask_hole]) = VBounds (Some worldLatLng).
Proof. reflexivity. Qed.

(** A polygon outside the world without a second ring is rejected. *)
Example outlier_rejected :
  validateBounds (Polygon geomask_outer []) = VFalse
  /\ getValidBounds (LayerGroup [Polygon geomask_outer []]) = None.
Proof. split; reflexivity. Qed.



(** ** Strings of printed numbers *)

Lemma all_chars_app (P : ascii -> bool) (a b : string) :
  all_chars P (a ++ b) = all_chars P a && all_chars P b.
Proof.
  induction a as [|c a IH]; simpl; [reflexivity|].
  rewrite IH. apply andb_assoc.
Qed.

Lemma all_chars_substring (P : ascii -> bool) (s : string) (n k : nat) :
  all_chars P s = true -> all_chars P (substring n k s) = true.
Proof.
  revert n k. induction s as [|c s IH]; intros n k Hs.
  - destruct n, k; reflexivity.
  - simpl in Hs. apply andb_true_iff in Hs as [Hc Hs].
    destruct n as [|n]; destruct k as [|k]; simpl; auto.
    rewrite Hc. simpl. auto.
Qed.

Lemma all_chars_zeros (P : ascii -> bool) (n : nat) :
  P "0"%char = true -> all_chars P (zeros n) = true.
Proof. intros HP. induction n; simpl; [reflexivity|]. rewrite HP. exact IHn. Qed.

Lemma all_chars_impl (P R : ascii -> bool) (s : string) :
  (forall c, P c = true -> R c = true) ->
  all_chars P s = true -> all_chars R s = true.
Proof.
  intros HPR. induction s as [|c s IH]; simpl; [reflexivity|].
  rewrite !andb_true_iff. intros [Hc Hs]. auto.
Qed.

Lemma numeric_char_not_slash (c : ascii) :
  is_numeric_char c = true -> not_slash c = true.
Proof.
  unfold not_slash. destruct (Ascii.eqb_spec c "/") as [->|]; [|reflexivity].
  vm_compute. discriminate.
Qed.

Lemma numeric_slashfree (s : string) : numeric s = true -> slashfree s = true.
Proof. apply all_chars_impl, numeric_char_not_slash. Qed.

Lemma pretty_N_char_numeric (x : N) : is_numeric_char (pretty_N_char x) = true.
Proof.
  unfold pretty_N_char. repeat case_match; reflexivity.
Qed.

Lemma pretty_N_go_numeric (x : N) (s : string) :
  numeric s = true -> numeric (pretty_N_go x s) = true.
Proof.
  revert s. induction (N.lt_wf_0 x) as [x _ IH]; intros s Hs.
  destruct (decide (x = 0)%N) as [->|Hx].
  - rewrite pretty_N_go_0. exact Hs.
  - rewrite pretty_N_go_step by lia. apply IH.
    + apply N.div_lt; lia.
    + unfold numeric; simpl. rewrite pretty_N_char_numeric. exact Hs.
Qed.

Lemma pretty_N_numeric (x : N) : numeric (pretty x) = true.
Proof.
  unfold pretty, pretty_N. case_decide; [reflexivity|].
  apply pretty_N_go_numeric. reflexivity.
Qed.

Lemma toString_numeric (z : Z) : numeric (toString z) = true.
Proof.
  unfold toString, pretty, pretty_Z. destruct z as [|p|p].
  - reflexivity.
  - apply (pretty_N_numeric (Npos p)).
  - unfold numeric. change ("-" +:+ pretty p) with (String "-" (pretty (Npos p))).
    simpl. apply (pretty_N_numeric (Npos p)).
Qed.

Lemma toFixed_numeric (x : Q) (digits : option nat) :
  numeric (toFixed x digits) = true.
Proof.
  unfold toFixed, numeric. rewrite all_chars_app. apply andb_true_iff. split.
  - destruct (Qnum x <? 0)%Z; reflexivity.
  - destruct (default 0%nat digits =? 0)%nat.
    + apply pretty_N_numeric.
    + set (m := zeros _ ++ pretty _).
      assert (Hm : all_chars is_numeric_char m = true).
      { unfold m. rewrite all_chars_app. apply andb_true_iff. split.
        - apply all_chars_zeros. reflexivity.
        - apply pretty_N_numeric. }
      rewrite !all_chars_app, !all_chars_substring by exact Hm. reflexivity.
Qed.

Lemma toString_not_undefined (z : Z) : toString z <> "undefined".
Proof.
  intros Heq. pose proof (toString_numeric z) as Hn. rewrite Heq in Hn.
  vm_compute in Hn. discriminate.
Qed.

Lemma toString_inj (a b : Z) : toString a = toString b -> a = b.
Proof. apply pretty_Z_inj. Qed.

(** Two strings joined by a slash come apart in one way only when the
    first parts hold no slash. *)
Lemma slash_split (a1 a2 r1 r2 : string) :
  slashfree a1 = true -> slashfree a2 = true ->
  a1 ++ "/" ++ r1 = a2 ++ "/" ++ r2 -> a1 = a2 /\ r1 = r2.
Proof.
  revert a2. induction a1 as [|c a1 IH]; intros [|d a2] H1 H2 Heq.
  - change (String "/" r1 = String "/" r2) in Heq. injection Heq as ->. auto.
  - change (String "/" r1 = String d (a2 ++ "/" ++ r2)) in Heq.
    injection Heq as <- _. vm_compute in H2. discriminate.
  - change (String c (a1 ++ "/" ++ r1) = String "/" r2) in Heq.
    injection Heq as -> _. vm_compute in H1. discriminate.
  - change (String c (a1 ++ "/" ++ r1) = String d (a2 ++ "/" ++ r2)) in Heq.
    injection Heq as -> Heq.
    simpl in H1, H2.
    apply andb_true_iff in H1 as [_ H1]. apply andb_true_iff in H2 as [_ H2].
    destruct (IH a2 H1 H2 Heq) as [-> ->]. auto.
Qed.

(** ** The precision table and [getScaleLatLng] *)

Section HashProperties.
Context {V : Type} `{Surface V}.

Lemma precisionAt_defined (z : Z) :
  (0 <= z <= 18)%Z -> is_Some (precisionAt z).
Proof.
  intros Hz. unfold precisionAt.
  destruct (z <? 0)%Z eqn:Hneg; [apply Z.ltb_lt in Hneg; lia|].
  apply lookup_lt_is_Some. simpl. lia.
Qed.

Lemma precisionAt_beyond (z : Z) : (19 <= z)%Z -> precisionAt z = None.
Proof.
  intros Hz. unfold precisionAt.
  destruct (z <? 0)%Z eqn:Hneg; [reflexivity|].
  apply lookup_ge_None. simpl. lia.
Qed.

Lemma toFixed_no_digits (x : Q) :
  toFixed x None =
  (if (Qnum x <? 0)%Z then "-" else "") ++ pretty (nearest (Qabs x) 0).
Proof. reflexivity. Qed.

Lemma getHash_cases (m : KMap V) :
  getHash m = fullScreenRoute m \/
  getHash m = fullScreenRoute m ++ positionSuffix m.
Proof.
  unfold getHash, positionSuffix.
  destruct (_initialPosition m) as [i|]; [|auto].
  destruct (getMapPosition m) as [c z]. cbn [fst snd].
  case_decide; [right|left]; reflexivity.
Qed.

(** C9.  The precision table has an entry for each of the zoom levels 0
    to 18 and no other, while the tile layer goes up to zoom 19.  At a zoom
    of 19 or more the lookup of [getScaleLatLng] falls outside the table,
    and both coordinates are printed with no decimals at all (at zoom 18
    they have five); the suffix of [getHash] is printed that way too. *)
Theorem precision_lost_beyond_table (m : KMap V) (lat lng : Q) (zoom : Z) :
  (19 <= zoom)%Z ->
  length precisionPerZoom = 19%nat
  /\ (forall z, (0 <= z <= 18)%Z -> is_Some (precisionAt z))
  /\ precisionAt 18 = Some 5%nat
  /\ maxZoom = 19%Z
  /\ precisionPerZoom !! Z.to_nat zoom = None
  /\ getScaleLatLng m lat lng (Some zoom) =
       [toFixed lat (Some 0%nat); toFixed lng (Some 0%nat)]
  /\ toFixed lat (precisionAt zoom) =
       (if (Qnum lat <? 0)%Z then "-" else "") ++ pretty (nearest (Qabs lat) 0)
  /\ (getZoom (view m) = zoom ->
      getScaleLatLng m lat lng None =
        [toFixed lat (Some 0%nat); toFixed lng (Some 0%nat)]
      /\ (getHash m = fullScreenRoute m \/
          getHash m = fullScreenRoute m ++ "/" ++ toString zoom ++ "/"
                      ++ toFixed (Leaflet.lat (wrap (getCenter (view m)))) (Some 0%nat) ++ "/"
                      ++ toFixed (Leaflet.lng (wrap (getCenter (view m)))) (Some 0%nat))).
Proof.
  intros Hz.
  assert (Hp : precisionAt zoom = None) by (apply precisionAt_beyond; exact Hz).
  split; [reflexivity|]. split; [apply precisionAt_defined|].
  split; [reflexivity|]. split; [reflexivity|].
  split; [apply lookup_ge_None; simpl; lia|].
  split; [unfold getScaleLatLng; rewrite Hp; reflexivity|].
  split; [rewrite Hp; apply toFixed_no_digits|].
  intros Hcur. split.
  - unfold getScaleLatLng. rewrite Hcur, Hp. reflexivity.
  - destruct (getHash_cases m) as [Hh|Hh]; [left; exact Hh|right].
    rewrite Hh. unfold positionSuffix, getMapPosition. rewrite Hcur, Hp.
    reflexivity.
Qed.

Lemma append_not_self (a b : string) (c : ascii) : a ++ String c b <> a.
Proof.
  induction a as [|d a IH]; [discriminate|].
  change (String d (a ++ String c b) <> String d a). congruence.
Qed.

(** ** [getHash] *)

Lemma hash_eq_iff (z0 : option Z) (z : Z) (a b a' b' : string) :
  slashfree a = true -> slashfree a' = true ->
  toStringU z0 ++ "/" ++ join_slash [a; b] = toString z ++ "/" ++ join_slash [a'; b']
  <-> (z0, [a; b]) = (Some z, [a'; b']).
Proof.
  intros Ha Ha'. split.
  - intros Heq.
    apply slash_split in Heq as [Hz Hrest].
    + change (a ++ "/" ++ b = a' ++ "/" ++ b') in Hrest.
      apply slash_split in Hrest as [-> ->]; [|assumption..].
      destruct z0 as [z0|].
      * apply toString_inj in Hz as ->. reflexivity.
      * symmetry in Hz. apply toString_not_undefined in Hz. contradiction.
    + destruct z0; [apply numeric_slashfree, toString_numeric | reflexivity].
    + apply numeric_slashfree, toString_numeric.
  - intros [= -> -> ->]. reflexivity.
Qed.

Lemma getHash_unchanged_iff (m : KMap V) (initial : position) :
  _initialPosition m = Some initial ->
  getHash m = fullScreenRoute m <->
  exists c0, center initial = Some c0 /\
    scaledPosition m c0 (zoom initial)
    = scaledPosition m (fst (getMapPosition m)) (Some (snd (getMapPosition m))).
Proof.
  intros Hi. unfold getHash. rewrite Hi.
  destruct (getMapPosition m) as [c z]. cbn [fst snd].
  destruct initial as [[c0|] z0]; cbn [center zoom].
  - unfold scaledPosition, getScaleLatLng.
    case_decide as Hd.
    + split.
      * intros Heq. exfalso. exact (append_not_self _ _ _ Heq).
      * intros (c1 & [= <-] & Hs). exfalso. apply Hd. f_equal.
        symmetry. apply hash_eq_iff; [apply numeric_slashfree, toFixed_numeric..|].
        exact Hs.
    + split; [|reflexivity]. intros _. exists c0. split; [reflexivity|].
      injection Hd as Hd. symmetry in Hd.
      apply hash_eq_iff in Hd; [exact Hd | apply numeric_slashfree, toFixed_numeric..].
  - case_decide as Hd; [|discriminate Hd].
    split.
    + intros Heq. exfalso. exact (append_not_self _ _ _ Heq).
    + intros (c1 & Hc & _). discriminate.
Qed.

(** C2.  Without a remembered initial position [getHash] is the route
    alone.  With one, it is the route alone when the initial position,
    printed with its zoom and with its coordinates rounded at the precision
    of that zoom, equals the current position printed the same way; and it
    is the route followed by [/zoom/lat/lng] of the current position
    whenever the two differ. *)
Theorem getHash_suffix_iff_moved (m : KMap V) :
  (_initialPosition m = None -> getHash m = fullScreenRoute m)
  /\ (forall initial : position,
        _initialPosition m = Some initial ->
        let current :=
          scaledPosition m (fst (getMapPosition m)) (Some (snd (getMapPosition m))) in
        let same :=
          exists c0, center initial = Some c0 /\
                     scaledPosition m c0 (zoom initial) = current in
        (same -> getHash m = fullScreenRoute m)
        /\ (~ same ->
            getHash m = fullScreenRoute m ++ positionSuffix m
            /\ getHash m <> fullScreenRoute m)).
Proof.
  split.
  - intros Hi. unfold getHash. rewrite Hi. reflexivity.
  - intros initial Hi current same. split.
    + intros Hs. apply (getHash_unchanged_iff m initial Hi). exact Hs.
    + intros Hn.
      assert (Hne : getHash m <> fullScreenRoute m).
      { intros Heq. apply Hn. apply (getHash_unchanged_iff m initial Hi). exact Heq. }
      split; [|exact Hne].
      destruct (getHash_cases m) as [Hh|Hh]; [contradiction|exact Hh].
Qed.

(** C10.  When the remembered initial position has no center, [getHash]
    always appends the suffix of the current position.  That is the state
    [initView] leaves when its center is absent or has a [NaN] entry and
    the view is not persisted, however little the map has moved. *)
Theorem getHash_without_initial_center (m : KMap V) (z0 : option Z) :
  _initialPosition m = Some (mkPosition None z0) ->
  getHash m = fullScreenRoute m ++ positionSuffix m
  /\ getHash m <> fullScreenRoute m
  /\ (forall (center : centerArg) (zoom : zoomArg) (m0 : KMap V),
        center = CUndefined \/
        (exists a b, center = CArray a b /\ (a = NaN \/ b = NaN)) ->
        _initialPosition (initView center zoom false m0)
          = Some (mkPosition None (resolveZoom zoom))
        /\ view (initView center zoom false m0) = view m0
        /\ getHash (initView center zoom false m0)
           = fullScreenRoute m0 ++ positionSuffix m0
        /\ (visible m0 = false ->
            _initialPosition (initView center zoom true m0)
              = Some (mkPosition None (resolveZoom zoom)))).
Proof.
  intros Hi.
  assert (Hsuffix : forall m' z', _initialPosition m' = Some (mkPosition None z') ->
            getHash m' = fullScreenRoute m' ++ positionSuffix m').
  { intros m' z' Hi'. unfold getHash, positionSuffix. rewrite Hi'.
    destruct (getMapPosition m') as [c z]. cbn [fst snd center].
    case_decide as Hd; [reflexivity|discriminate Hd]. }
  split; [apply (Hsuffix m z0 Hi)|]. split.
  - rewrite (Hsuffix m z0 Hi). unfold positionSuffix.
    destruct (getMapPosition m). apply append_not_self.
  - intros center zoom m0 Hc.
    assert (Hr : resolveCenter center = None).
    { destruct Hc as [->|(a & b & -> & [-> | ->])]; [reflexivity..|].
      simpl. destruct a; reflexivity. }
    assert (Hst : _initialPosition (initView center zoom false m0)
                  = Some (mkPosition None (resolveZoom zoom))).
    { unfold initView, initView_store. simpl. rewrite Hr. reflexivity. }
    split; [exact Hst|]. split; [reflexivity|]. split.
    + rewrite (Hsuffix _ _ Hst). reflexivity.
    + intros Hvis. unfold initView, initView_store, setView. rewrite Hr.
      cbn [centerOf resolveCenter]. simpl. rewrite Hvis. reflexivity.
Qed.

End HashProperties.

(** ** [setView] and [initView] *)

Section ViewProperties.
Context {V : Type} `{Surface V}.

(** No center resolves exactly from [undefined] and from an array with a
    [NaN] entry. *)
Lemma resolveCenter_None (center : centerArg) :
  resolveCenter center = None <->
  center = CUndefined \/ exists a b, center = CArray a b /\ (a = NaN \/ b = NaN).
Proof.
  split.
  - destruct center as [|a b|p]; [auto| |discriminate].
    intros Hr. right. exists a, b. split; [reflexivity|].
    destruct a; [auto|]. destruct b; [auto|discriminate].
  - intros [->|(a & b & -> & [-> | ->])]; [reflexivity..|].
    destruct a; reflexivity.
Qed.

(** The view after the auto-fit branch. *)
Lemma setView_autofit_view (m : KMap V) (center : centerArg) (zoom : zoomArg) (save : bool) :
  resolveCenter center = None ->
  view (setView center zoom save m) =
    match _initialPosition m with
    | Some (mkPosition _ (Some initial_zoom)) => setZoom initial_zoom (fitted m)
    | _ => fitted m
    end.
Proof.
  intros Hr. unfold setView, fitted, getInitialMapPosition. rewrite Hr.
  destruct (_initialPosition m) as [[c [z|]]|]; cbn -[getValidBoundsMap];
    destruct (visible m), save; reflexivity.
Qed.

(** What [setView] leaves alone unless it persists. *)
Lemma setView_frame (m : KMap V) (center : centerArg) (zoom : zoomArg) (save : bool) :
  resolveCenter center <> None \/ save = false \/ visible m = false ->
  _initialPosition (setView center zoom save m) = _initialPosition m
  /\ data (setView center zoom save m) = data m.
Proof.
  intros Hc. unfold setView.
  destruct (resolveCenter center) as [c|]; [split; reflexivity|].
  cbn -[getValidBoundsMap].
  destruct Hc as [Hc|[-> | ->]]; [congruence| |].
  - rewrite andb_false_r. split; reflexivity.
  - split; reflexivity.
Qed.

(** What a persisting auto-fit writes. *)
Lemma setView_persists (m : KMap V) (center : centerArg) (zoom : zoomArg) :
  resolveCenter center = None -> visible m = true ->
  let m' := setView center zoom true m in
  _initialPosition m'
    = Some (mkPosition (Some (getCenter (view m'))) (Some (getZoom (view m'))))
  /\ data m'
    = Some (mkAttrs (getZoom (view m')) (lng (getCenter (view m')))
              (lat (getCenter (view m')))).
Proof.
  intros Hr Hvis. unfold setView. rewrite Hr. cbn -[getValidBoundsMap].
  rewrite Hvis. split; reflexivity.
Qed.

(** C1, as the code has it.  When no center resolves, [setView] computes
    the valid bounds over all layers of the map, fits the view to them when
    they are valid and to the whole world otherwise, and then reapplies the
    zoom of the remembered initial position when that is a number.  The
    zoom argument of the call is not read on this path; reached through
    [initView], which has just remembered that argument, it is the zoom
    that is reapplied. *)
Theorem setView_autofit (m : KMap V) (center : centerArg) (zoom : zoomArg) (save : bool) :
  resolveCenter center = None ->
  fitted m =
    (if isValid (getValidBounds (LayerGroup (layers m)))
     then match getValidBounds (LayerGroup (layers m)) with
          | Some b => fitBounds b (view m)
          | None => view m
          end
     else fitWorld (view m))
  /\ view (setView center zoom save m) =
       match _initialPosition m with
       | Some (mkPosition _ (Some initial_zoom)) => setZoom initial_zoom (fitted m)
       | _ => fitted m
       end
  /\ (forall z : Z,
        view (initView center (Some (Fin z)) true m) = setZoom z (fitted m))
  /\ (isNaN zoom = true ->
        view (initView center zoom true m) = fitted m).
Proof.
  intros Hr. split; [|split; [|split]].
  - unfold fitted, getValidBoundsMap.
    destruct (getValidBounds (LayerGroup (layers m))); reflexivity.
  - apply setView_autofit_view, Hr.
  - intros z. unfold initView. rewrite Hr. cbn [centerOf].
    rewrite setView_autofit_view by reflexivity. reflexivity.
  - intros Hnan. unfold initView. rewrite Hr. cbn [centerOf].
    rewrite setView_autofit_view by reflexivity.
    destruct zoom as [[|z]|]; try discriminate; reflexivity.
Qed.

(** C7.  With persist requested, [setView] leaves the remembered initial
    position and the data attributes of the container as they were when the
    container is not visible; they change only in a visible container; and
    in a visible container the auto-fit writes the center and zoom it has
    resolved into both. *)
Theorem setView_persists_only_when_visible (m : KMap V) (center : centerArg) (zoom : zoomArg) :
  (visible m = false ->
     _initialPosition (setView center zoom true m) = _initialPosition m
     /\ data (setView center zoom true m) = data m)
  /\ (_initialPosition (setView center zoom true m) <> _initialPosition m
      \/ data (setView center zoom true m) <> data m ->
      visible m = true)
  /\ (visible m = true -> resolveCenter center = None ->
      let m' := setView center zoom true m in
      _initialPosition m'
        = Some (mkPosition (Some (getCenter (view m'))) (Some (getZoom (view m'))))
      /\ data m'
        = Some (mkAttrs (getZoom (view m')) (lng (getCenter (view m')))
                  (lat (getCenter (view m'))))).
Proof.
  split; [|split].
  - intros Hvis. apply setView_frame. auto.
  - intros Hch. destruct (visible m) eqn:Hvis; [reflexivity|].
    destruct (setView_frame m center zoom true) as [Hi Hd]; [auto|].
    destruct Hch as [Hch|Hch]; contradiction.
  - intros Hvis Hr. apply setView_persists; assumption.
Qed.

End ViewProperties.

(** ** The remembered initial position *)

Section InitialPosition.
Context {V : Type} `{Surface V}.

Lemma initialPosition_emit (e : event) (m : KMap V) :
  _initialPosition (emit e m) = _initialPosition m.
Proof. reflexivity. Qed.

Lemma toggleStaticState_initialPosition (w : Z) (m : KMap V) :
  _initialPosition (toggleStaticState w m) = _initialPosition m.
Proof.
  unfold toggleStaticState. case_decide; [reflexivity|].
  destruct ((w <=? 480)%Z || (getSizeX (view m) + 200 >? w)%Z); reflexivity.
Qed.

Lemma invalidateSize_initialPosition (m : KMap V) :
  _initialPosition (invalidateSize m) = _initialPosition m.
Proof.
  unfold invalidateSize. cbn [fullscreen alwaysInteractive set_view].
  destruct (fullscreen m), (alwaysInteractive m); reflexivity.
Qed.

Lemma staticTimerFires_initialPosition (w : Z) (m : KMap V) :
  _initialPosition (staticTimerFires w m) = _initialPosition m.
Proof.
  unfold staticTimerFires. destruct (_staticTimer m); [|reflexivity].
  rewrite toggleStaticState_initialPosition. reflexivity.
Qed.

Lemma openFullScreen_ready_initialPosition (w : Z) (pos : option positionArg) (m : KMap V) :
  _initialPosition (openFullScreen_ready w pos m) = _initialPosition m.
Proof.
  unfold openFullScreen_ready.
  destruct (link m).
  - destruct (_updatingHash m); [reflexivity|].
    rewrite initialPosition_emit. apply setView_frame. auto.
  - destruct (fullScreenMap m) as [child|].
    + destruct (_updatingHash child); reflexivity.
    + cbn [_initialPosition set_fullScreenMap emit set_log].
      destruct (_initialPosition m) as [[c z]|] eqn:Hi;
        cbn [_initialPosition set_fullScreenMap emit set_log]; exact Hi.
Qed.

Lemma openFullScreen_initialPosition (w : Z) (pos : option positionArg) (m : KMap V) :
  _initialPosition (openFullScreen w pos m) = _initialPosition m.
Proof.
  unfold openFullScreen, doWhenReady.
  destruct (_kartographer_ready m); [|reflexivity].
  apply openFullScreen_ready_initialPosition.
Qed.

(** C8, as the code has it.  A remembered initial position is not
    immutable.  [setView] keeps it when a center resolves, when persist is
    not requested and when the container is not visible, but a persisting
    auto-fit in a visible container replaces it by the center and zoom it
    has resolved; [initView] replaces it by its arguments whenever it is
    called.  Opening full screen (again) and the transitions of the
    responsive mode leave it as it is. *)
Theorem initialPosition_replaced_by_persisting
    (m : KMap V) (p : position) (center : centerArg) (zoom : zoomArg) (save : bool) :
  _initialPosition m = Some p ->
  (resolveCenter center <> None \/ save = false \/ visible m = false ->
     _initialPosition (setView center zoom save m) = Some p)
  /\ (resolveCenter center = None -> save = true -> visible m = true ->
      let m' := setView center zoom save m in
      _initialPosition m'
        = Some (mkPosition (Some (getCenter (view m'))) (Some (getZoom (view m')))))
  /\ _initialPosition (initView center zoom false m)
       = Some (mkPosition (resolveCenter center) (resolveZoom zoom))
  /\ (forall (w : Z) (pos : option positionArg),
        _initialPosition (openFullScreen w pos m) = Some p)
  /\ (forall w : Z,
        _initialPosition (toggleStaticState w m) = Some p
        /\ _initialPosition (staticTimerFires w (invalidateSize m)) = Some p).
Proof.
  intros Hp. split; [|split; [|split; [|split]]].
  - intros Hc. rewrite <- Hp. apply setView_frame, Hc.
  - intros Hr -> Hvis. apply setView_persists; assumption.
  - reflexivity.
  - intros w pos. rewrite openFullScreen_initialPosition. exact Hp.
  - intros w. split.
    + rewrite toggleStaticState_initialPosition. exact Hp.
    + rewrite staticTimerFires_initialPosition, invalidateSize_initialPosition.
      exact Hp.
Qed.

End InitialPosition.

(** ** The responsive mode *)

Section ModeProperties.
Context {V : Type} `{Surface V}.

Lemma staticRule_spec (w : Z) (v : V) :
  staticRule w v = true <-> (w <= 480 \/ getSizeX v + 200 > w)%Z.
Proof.
  unfold staticRule. rewrite orb_true_iff, Z.leb_le, Z.gtb_gt. reflexivity.
Qed.

Lemma toggleStaticState_static (w : Z) (m : KMap V) :
  _static (toggleStaticState w m) = Some (staticRule w (view m))
  /\ view (toggleStaticState w m) = view m.
Proof.
  unfold toggleStaticState. fold (staticRule w (view m)).
  case_decide as Hd; [auto|].
  destruct (staticRule w (view m)); split; reflexivity.
Qed.

Lemma toggleStaticState_noop (w : Z) (m : KMap V) :
  _static m = Some (staticRule w (view m)) -> toggleStaticState w m = m.
Proof.
  intros Hs. unfold toggleStaticState. fold (staticRule w (view m)).
  case_decide; [reflexivity|contradiction].
Qed.

Lemma toggleStaticState_log (w : Z) (m : KMap V) :
  log (toggleStaticState w m)
  = (log m ++ if decide (_static m = Some (staticRule w (view m))) then []
              else if staticRule w (view m)
                   then [SleepMap; SleepDisable; ScrollWheelZoomDisable;
                         ToggleClassStatic true]
                   else [SleepEnable; ToggleClassStatic false])%list.
Proof.
  unfold toggleStaticState. fold (staticRule w (view m)).
  case_decide; [symmetry; apply app_nil_r|].
  destruct (staticRule w (view m)); cbn; rewrite <- !app_assoc; reflexivity.
Qed.

(** C6.  The mode is static exactly when the viewport is at most 480 px
    wide or the map is wider than the viewport less a margin of 200 px, and
    interactive otherwise.  [toggleStaticState] does nothing when that is
    already the mode of the map, so running it again changes nothing.
    Entering the static mode puts the map to sleep, disables the sleep
    handler and disables wheel zoom; entering the interactive mode enables
    the sleep handler again and nothing else: it makes no call on wheel
    zoom, which no call of [toggleStaticState] ever turns on.  A map that
    is neither full screen nor always interactive computes the mode on
    construction and whenever the timer that [invalidateSize] starts runs
    out; the other maps never do. *)
Theorem toggleStaticState_rule (deviceWidth : Z) (m : KMap V) :
  (staticRule deviceWidth (view m) = true <->
     (deviceWidth <= 480 \/ getSizeX (view m) + 200 > deviceWidth)%Z)
  /\ _static (toggleStaticState deviceWidth m) = Some (staticRule deviceWidth (view m))
  /\ (_static m = Some (staticRule deviceWidth (view m)) ->
      toggleStaticState deviceWidth m = m)
  /\ toggleStaticState deviceWidth (toggleStaticState deviceWidth m)
     = toggleStaticState deviceWidth m
  /\ (_static m <> Some true -> staticRule deviceWidth (view m) = true ->
      log (toggleStaticState deviceWidth m)
      = (log m ++ [SleepMap; SleepDisable; ScrollWheelZoomDisable; ToggleClassStatic true])%list)
  /\ (_static m <> Some false -> staticRule deviceWidth (view m) = false ->
      log (toggleStaticState deviceWidth m)
      = (log m ++ [SleepEnable; ToggleClassStatic false])%list)
  /\ (forall o : options V,
        _static (newMap deviceWidth o) =
          if negb (o_fullscreen o) && negb (o_alwaysInteractive o)
          then Some (staticRule deviceWidth (container o))
          else None)
  /\ (fullscreen m = false -> alwaysInteractive m = false ->
      _staticTimer (invalidateSize m) = true
      /\ _static (staticTimerFires deviceWidth (invalidateSize m))
         = Some (staticRule deviceWidth (L_invalidateSize (view m))))
  /\ (fullscreen m = true \/ alwaysInteractive m = true ->
      _staticTimer (invalidateSize m) = _staticTimer m
      /\ _static (invalidateSize m) = _static m)
  /\ (_static m <> Some false -> staticRule deviceWidth (view m) = false ->
      filter (fun e => onScrollWheelZoom e = true) (log (toggleStaticState deviceWidth m))
      = filter (fun e => onScrollWheelZoom e = true) (log m)
      /\ (forall enabled : bool,
            wheelZoomEnabled enabled (log (toggleStaticState deviceWidth m))
            = wheelZoomEnabled enabled (log m)))
  /\ (_static m <> Some true -> staticRule deviceWidth (view m) = true ->
      forall enabled : bool,
        wheelZoomEnabled enabled (log (toggleStaticState deviceWidth m)) = false)
  /\ (forall enabled : bool,
        wheelZoomEnabled enabled (log (toggleStaticState deviceWidth m)) = true ->
        wheelZoomEnabled enabled (log m) = true).
Proof.
  split; [apply staticRule_spec|].
  split; [apply toggleStaticState_static|].
  split; [apply toggleStaticState_noop|].
  split.
  { apply toggleStaticState_noop.
    destruct (toggleStaticState_static deviceWidth m) as [-> ->]. reflexivity. }
  split.
  { intros Hs Hr. unfold toggleStaticState. fold (staticRule deviceWidth (view m)).
    rewrite Hr. case_decide; [contradiction|].
    cbn. rewrite <- !app_assoc. reflexivity. }
  split.
  { intros Hs Hr. unfold toggleStaticState. fold (staticRule deviceWidth (view m)).
    rewrite Hr. case_decide; [contradiction|].
    cbn. rewrite <- !app_assoc. reflexivity. }
  split.
  { intros o. unfold newMap, _invalidateInteractive.
    destruct (negb (o_fullscreen o) && negb (o_alwaysInteractive o)); [|reflexivity].
    apply toggleStaticState_static. }
  split.
  { intros Hf Ha. unfold invalidateSize, staticTimerFires.
    cbn [fullscreen alwaysInteractive set_view]. rewrite Hf, Ha.
    cbn [negb andb _staticTimer set_staticTimer]. split; [reflexivity|].
    apply toggleStaticState_static. }
  split.
  { intros Hfa. unfold invalidateSize.
    cbn [fullscreen alwaysInteractive set_view].
    destruct Hfa as [-> | ->]; [|rewrite andb_false_r]; split; reflexivity. }
  split.
  { intros Hs Hr. rewrite (toggleStaticState_log deviceWidth m), Hr.
    case_decide; [contradiction|]. split.
    - rewrite filter_app. cbn. apply app_nil_r.
    - intros enabled. unfold wheelZoomEnabled. rewrite existsb_app.
      cbn. rewrite orb_false_r. reflexivity. }
  split.
  { intros Hs Hr enabled. rewrite (toggleStaticState_log deviceWidth m), Hr.
    case_decide; [contradiction|].
    unfold wheelZoomEnabled. rewrite existsb_app. cbn.
    rewrite orb_true_r. apply andb_false_r. }
  intros enabled. rewrite (toggleStaticState_log deviceWidth m).
  case_decide; [rewrite app_nil_r; auto|].
  unfold wheelZoomEnabled. rewrite existsb_app.
  intros [He Hcalls]%andb_true_iff. rewrite He. cbn [andb].
  apply negb_true_iff in Hcalls. apply orb_false_iff in Hcalls as [-> _].
  reflexivity.
Qed.

End ModeProperties.

(** ** What the operations leave alone *)

Section Frames.
Context {V : Type} `{Surface V}.

Lemma setView_fields (m : KMap V) (center : centerArg) (zoom : zoomArg) (save : bool) :
  let m' := setView center zoom save m in
  layers m' = layers m /\ dataLayers m' = dataLayers m /\ log m' = log m
  /\ _kartographer_ready m' = _kartographer_ready m
  /\ listeners m' = listeners m /\ fullScreenMap m' = fullScreenMap m
  /\ _updatingHash m' = _updatingHash m /\ link m' = link m.
Proof.
  unfold setView. destruct (resolveCenter center); [repeat split|].
  cbn -[getValidBoundsMap]. destruct (visible m && save); repeat split.
Qed.

Lemma initView_fields (m : KMap V) (center : centerArg) (zoom : zoomArg) (sv : bool) :
  let m' := initView center zoom sv m in
  layers m' = layers m /\ dataLayers m' = dataLayers m /\ log m' = log m
  /\ _kartographer_ready m' = _kartographer_ready m
  /\ listeners m' = listeners m /\ fullScreenMap m' = fullScreenMap m
  /\ _updatingHash m' = _updatingHash m /\ link m' = link m.
Proof.
  unfold initView. destruct sv; [|repeat split].
  apply (setView_fields (initView_store center zoom m)).
Qed.

Lemma addGeoJSONLayer_fields (groupId : string) (g : geojson) (o : layerOptions) (m : KMap V) :
  let m' := addGeoJSONLayer groupId g o m in
  _kartographer_ready m' = _kartographer_ready m
  /\ listeners m' = listeners m /\ fullScreenMap m' = fullScreenMap m
  /\ _updatingHash m' = _updatingHash m /\ link m' = link m
  /\ (Forall (fun e => isFetch e = false) (log m) ->
      Forall (fun e => isFetch e = false) (log m')).
Proof.
  unfold addGeoJSONLayer. destruct (featureLayer g); cbn; repeat split;
    intros Hf; rewrite Forall_app; (split; [exact Hf|]);
    repeat constructor.
Qed.

Lemma addGroup_fields (m : KMap V) (g : group) :
  listeners (addGroup m g) = listeners m
  /\ _kartographer_ready (addGroup m g) = _kartographer_ready m.
Proof.
  unfold addGroup. destruct (negb (isEmptyObject (getGeoJSON g))); [|split; reflexivity].
  destruct (addGeoJSONLayer_fields (id g) (getGeoJSON g)
              (mkLayerOptions (attribution g)
                 (if isExternal g then Some (attribution g) else None)) m)
    as (Hr & Hl & _).
  split; assumption.
Qed.

Lemma addGroups_listeners (gs : list group) (m : KMap V) :
  listeners (fold_left addGroup gs m) = listeners m.
Proof.
  revert m. induction gs as [|g gs IH]; intros m; [reflexivity|].
  simpl. rewrite IH. apply addGroup_fields.
Qed.

Lemma addInlineGroups_listeners (gs : list group) (st : KMap V * nat) :
  listeners (fst (fold_left addInlineGroup gs st)) = listeners (fst st).
Proof.
  revert st. induction gs as [|g gs IH]; intros [m n]; [reflexivity|].
  simpl. rewrite IH. cbn [fst].
  destruct (negb (isEmptyObject (getGeoJSON g))); [|reflexivity].
  apply addGeoJSONLayer_fields.
Qed.

Lemma toggleStaticState_fields (w : Z) (m : KMap V) :
  let m' := toggleStaticState w m in
  listeners m' = listeners m /\ dataLayers m' = dataLayers m
  /\ layers m' = layers m /\ fullScreenMap m' = fullScreenMap m
  /\ _updatingHash m' = _updatingHash m.
Proof.
  unfold toggleStaticState. case_decide; [repeat split|].
  destruct ((w <=? 480)%Z || (getSizeX (view m) + 200 >? w)%Z); repeat split.
Qed.

Lemma newMap_fields (w : Z) (o : options V) :
  listeners (newMap w o) = [] /\ dataLayers (newMap w o) = ∅
  /\ layers (newMap w o) = [TileLayer] /\ fullScreenMap (newMap w o) = None
  /\ _updatingHash (newMap w o) = false.
Proof.
  unfold newMap, _invalidateInteractive.
  destruct (negb (o_fullscreen o) && negb (o_alwaysInteractive o)); [|repeat split].
  match goal with
  | |- context [toggleStaticState w ?m0] =>
      destruct (toggleStaticState_fields w m0) as (-> & -> & -> & -> & ->)
  end.
  repeat split.
Qed.

(** The callbacks of [doWhenReady] do not take readiness back. *)
Lemma run_ready (w : Z) (m : KMap V) (cb : callback) :
  _kartographer_ready (run w m cb) = _kartographer_ready m.
Proof.
  destruct cb as [pos]. unfold run, openFullScreen_ready.
  destruct (link m).
  - destruct (_updatingHash m); [reflexivity|].
    cbn [emit set_log _kartographer_ready]. apply setView_fields.
  - destruct (fullScreenMap m) as [child|].
    + destruct (_updatingHash child); reflexivity.
    + cbn [_initialPosition set_fullScreenMap emit set_log].
      destruct (_initialPosition m) as [[c z]|]; reflexivity.
Qed.

Lemma fold_run_ready (w : Z) (l : list callback) (m : KMap V) :
  _kartographer_ready (fold_left (run w) l m) = _kartographer_ready m.
Proof.
  revert m. induction l as [|cb l IH]; intros m; [reflexivity|].
  simpl. rewrite IH. apply run_ready.
Qed.

Lemma ready_sets_flag (w : Z) (o : options V) (m : KMap V) :
  _kartographer_ready (ready w o m) = true.
Proof.
  unfold ready, fire_kartographerisready. rewrite fold_run_ready. reflexivity.
Qed.

Lemma ready_no_listeners (w : Z) (o : options V) (m : KMap V) :
  listeners m = [] ->
  ready w o m = set_kartographer_ready true (initView (o_center o) (o_zoom o) true m).
Proof.
  intros Hl. unfold ready, fire_kartographerisready.
  destruct (initView_fields m (o_center o) (o_zoom o) true) as (_ & _ & _ & _ & Hl' & _).
  rewrite Hl', Hl. reflexivity.
Qed.

End Frames.

(** ** Loading the data groups *)

Section Loading.
Context {V : Type} `{Surface V}.

Lemma addGroup_empty (m : KMap V) (g : group) :
  getGeoJSON g = [] -> addGroup m g = emit (LogWarn (id g)) m.
Proof. intros Hg. unfold addGroup. rewrite Hg. reflexivity. Qed.

Lemma addGroup_yields (m : KMap V) (g : group) :
  yieldsLayer g = true ->
  exists l, dataLayers (addGroup m g) = <[id g := l]> (dataLayers m)
            /\ layers (addGroup m g) = (layers m ++ [rendered l])%list.
Proof.
  unfold yieldsLayer, addGroup, addGeoJSONLayer.
  intros [Hne Hdraw]%andb_true_iff. rewrite Hne.
  apply bool_decide_eq_true in Hdraw as [l Hl]. rewrite Hl.
  eexists. split; reflexivity.
Qed.

Lemma addGroup_skips (m : KMap V) (g : group) :
  yieldsLayer g = false ->
  dataLayers (addGroup m g) = dataLayers m /\ layers (addGroup m g) = layers m.
Proof.
  unfold yieldsLayer, addGroup, addGeoJSONLayer. intros Hy.
  destruct (negb (isEmptyObject (getGeoJSON g))); [|split; reflexivity].
  destruct (featureLayer (getGeoJSON g)) as [l|]; [|split; reflexivity].
  rewrite bool_decide_eq_true_2 in Hy by eauto. discriminate.
Qed.

Lemma addGroup_log_mono (m : KMap V) (g : group) (e : event) :
  e ∈ log m -> e ∈ log (addGroup m g).
Proof.
  intros He. unfold addGroup, addGeoJSONLayer.
  destruct (negb (isEmptyObject (getGeoJSON g)));
    [destruct (featureLayer (getGeoJSON g))|]; cbn;
    rewrite ?elem_of_app; auto.
Qed.

Lemma addGroups_log_mono (gs : list group) (m : KMap V) (e : event) :
  e ∈ log m -> e ∈ log (fold_left addGroup gs m).
Proof.
  revert m. induction gs as [|g gs IH]; intros m He; [exact He|].
  simpl. apply IH, addGroup_log_mono, He.
Qed.

Lemma addGroups_warns (gs : list group) (m : KMap V) (g : group) :
  g ∈ gs -> getGeoJSON g = [] -> LogWarn (id g) ∈ log (fold_left addGroup gs m).
Proof.
  revert m. induction gs as [|g' gs IH]; intros m Hin Hg.
  - apply elem_of_nil in Hin. contradiction.
  - apply elem_of_cons in Hin as [<-|Hin]; simpl.
    + apply addGroups_log_mono. rewrite addGroup_empty by exact Hg.
      cbn. apply elem_of_app. right. apply list_elem_of_singleton. reflexivity.
    + apply IH; assumption.
Qed.

(** The registered layers after a batch: one for every group that yields
    a layer, under the id of the group. *)
Lemma addGroups_layers (gs : list group) (m : KMap V) :
  dom (dataLayers (fold_left addGroup gs m))
    = dom (dataLayers m) ∪ list_to_set (id <$> filter (fun g => yieldsLayer g = true) gs)
  /\ length (layers (fold_left addGroup gs m))
    = (length (layers m) + length (filter (fun g => yieldsLayer g = true) gs))%nat.
Proof.
  revert m. induction gs as [|g gs IH]; intros m.
  - simpl. split; [set_solver | lia].
  - simpl. destruct (IH (addGroup m g)) as [IHd IHl]. rewrite IHd, IHl.
    destruct (yieldsLayer g) eqn:Hy.
    + destruct (addGroup_yields m g Hy) as (l & Hd & Hl). rewrite Hd, Hl.
      rewrite filter_cons_True by exact Hy.
      rewrite dom_insert_L, length_app. simpl. split; [set_solver | lia].
    + destruct (addGroup_skips m g Hy) as [Hd Hl]. rewrite Hd, Hl.
      rewrite filter_cons_False by congruence. split; reflexivity.
Qed.

(** Where the inline data is absent or loads, construction of a map that
    loads data groups runs to the ready state whatever the data manager
    answers: a group that resolves with empty geometry is logged and
    skipped, the batch still resolves, and when the call of the data manager
    is rejected the map is made ready all the same, without layers.  When
    three groups come back, two with geometry that can be drawn and one
    empty, the map is ready with exactly two data layers. *)
Theorem initialization_always_completes (server : string) (w : Z) (o : options V)
    (loadGroups load : settled (list group)) (n : nat) :
  server <> "" ->
  o_parentMap o = None ->
  o_data o = None \/ (exists gs, load = Resolved gs) ->
  (exists m n', initialize (Some server) w o loadGroups load n = Some (m, n')
                /\ _kartographer_ready m = true)
  /\ (forall (m : KMap V) (g : group),
        getGeoJSON g = [] ->
        addGroup m g = emit (LogWarn (id g)) m
        /\ dataLayers (addGroup m g) = dataLayers m
        /\ layers (addGroup m g) = layers m)
  /\ (forall (ids : option (list string)) (gs : list group) (m : KMap V),
        fst (addDataGroups ids (Resolved gs) m) = Resolved tt)
  /\ (forall (i : string) (ids : list string),
        o_dataGroups o = Some (i :: ids) -> loadGroups = Rejected ->
        exists m n', initialize (Some server) w o loadGroups load n = Some (m, n')
                     /\ _kartographer_ready m = true
                     /\ dataLayers m = ∅
                     /\ LogError ∈ log m)
  /\ (forall (i : string) (ids : list string) (groups : list group)
             (ok1 ok2 failed : group),
        o_dataGroups o = Some (i :: ids) -> o_data o = None ->
        loadGroups = Resolved groups ->
        groups ≡ₚ [ok1; ok2; failed] ->
        id ok1 <> id ok2 ->
        yieldsLayer ok1 = true -> yieldsLayer ok2 = true ->
        getGeoJSON failed = [] ->
        exists m n', initialize (Some server) w o loadGroups load n = Some (m, n')
                     /\ _kartographer_ready m = true
                     /\ size (dataLayers m) = 2%nat
                     /\ length (layers m) = 3%nat
                     /\ LogWarn (id failed) ∈ log m).
Proof.
  intros Hserver Hparent Hinline.
  assert (Hinit : initialize (Some server) w o loadGroups load n
                  = Some (initialize_async w o loadGroups load (newMap w o, n))).
  { unfold initialize, initialize_sync. rewrite Hparent.
    destruct server; [congruence | reflexivity]. }
  destruct (newMap_fields w o) as (Hl0 & Hd0 & Hlayers0 & _).
  split; [|split; [|split; [|split]]].
  - rewrite Hinit. unfold initialize_async.
    destruct (addDataGroups (o_dataGroups o) loadGroups (newMap w o)) as [[[]|] m1].
    + destruct (o_data o) as [d|].
      * destruct Hinline as [Hd|[gs ->]]; [discriminate|].
        unfold addDataLayer.
        destruct (fold_left addInlineGroup gs _) as [m2 n2] eqn:Hfold.
        exists (ready w o m2), n2. split; [reflexivity | apply ready_sets_flag].
      * eexists _, _. split; [reflexivity | apply ready_sets_flag].
    + eexists _, _. split; [reflexivity|]. cbn. apply ready_sets_flag.
  - intros m g Hg. rewrite (addGroup_empty m g Hg). repeat split.
  - intros [[|i ids]|] gs m; reflexivity.
  - intros i ids Hids ->. rewrite Hinit. unfold initialize_async, addDataGroups.
    rewrite Hids. eexists _, _. split; [reflexivity|].
    rewrite ready_no_listeners by exact Hl0.
    split; [reflexivity|]. split.
    + cbn [emit set_log dataLayers set_kartographer_ready].
      match goal with
      | |- dataLayers (initView ?c ?z ?b ?m0) = _ =>
          destruct (initView_fields m0 c z b) as (_ & -> & _)
      end.
      exact Hd0.
    + cbn [emit set_log log]. apply elem_of_app. right.
      apply list_elem_of_singleton. reflexivity.
  - intros i ids groups ok1 ok2 failed Hids Hdata -> Hperm Hne Hy1 Hy2 Hfailed.
    rewrite Hinit. unfold initialize_async, addDataGroups. rewrite Hids, Hdata.
    eexists _, _. split; [reflexivity|].
    set (m0 := emit (LoadGroups (i :: ids)) (newMap w o)).
    assert (Hl : listeners (fold_left addGroup groups m0) = []).
    { rewrite addGroups_listeners. exact Hl0. }
    rewrite (ready_no_listeners w o _ Hl).
    split; [reflexivity|].
    cbn [dataLayers layers log set_kartographer_ready].
    destruct (initView_fields (fold_left addGroup groups m0) (o_center o) (o_zoom o) true)
      as (-> & -> & -> & _).
    assert (Hyf : yieldsLayer failed = false).
    { unfold yieldsLayer. rewrite Hfailed. reflexivity. }
    assert (Hfilter : filter (fun g => yieldsLayer g = true) groups ≡ₚ [ok1; ok2]).
    { rewrite Hperm.
      rewrite filter_cons_True by exact Hy1.
      rewrite filter_cons_True by exact Hy2.
      rewrite filter_cons_False by congruence. reflexivity. }
    destruct (addGroups_layers groups m0) as [Hdom Hlen].
    split; [|split].
    + rewrite <- size_dom, Hdom. change (dataLayers m0) with (dataLayers (newMap w o)).
      rewrite Hd0, dom_empty_L, Hfilter, union_empty_l_L.
      rewrite size_list_to_set; [reflexivity|].
      simpl. repeat constructor; set_solver.
    + rewrite Hlen. change (layers m0) with (layers (newMap w o)).
      rewrite Hlayers0, Hfilter. reflexivity.
    + apply addGroups_warns; [|exact Hfailed].
      rewrite Hperm. set_solver.
Qed.

End Loading.

(** ** The full screen child *)

Section FullScreenProperties.
Context {V : Type} `{Surface V}.





Lemma setView_fullscreen (m : KMap V) (c : centerArg) (z : zoomArg) (save : bool) :
  fullscreen (setView c z save m) = fullscreen m
  /\ visible (setView c z save m) = visible m.
Proof.
  unfold setView. destruct (resolveCenter c); [split; reflexivity|].
  cbn -[getValidBoundsMap]. destruct (visible m && save); split; reflexivity.
Qed.

Lemma initView_fullscreen (m : KMap V) (c : centerArg) (z : zoomArg) (sv : bool) :
  fullscreen (initView c z sv m) = fullscreen m
  /\ visible (initView c z sv m) = visible m.
Proof.
  unfold initView. destruct sv; [|split; reflexivity].
  apply (setView_fullscreen (initView_store c z m)).
Qed.




Lemma filter_log_emit (P : event -> bool) (e : event) (m : KMap V) :
  filter (fun e => P e = true) (log (emit e m))
  = (filter (fun e => P e = true) (log m) ++ if P e then [e] else [])%list.
Proof.
  cbn [emit set_log log]. rewrite filter_app. f_equal.
  destruct (P e) eqn:HP.
  - rewrite filter_cons_True by exact HP. reflexivity.
  - rewrite filter_cons_False by congruence. reflexivity.
Qed.


End FullScreenProperties.

Lemma precision_lost_beyond_table_witness :
  getScaleLatLng (sampleMap (mkLatLng (4885837 # 100000) (229448 # 100000)) 19 None)
    (4885837 # 100000) (229448 # 100000) (Some 19%Z) = ["49"; "2"]
  /\ getScaleLatLng (sampleMap (mkLatLng (4885837 # 100000) (229448 # 100000)) 19 None)
    (4885837 # 100000) (229448 # 100000) (Some 18%Z) = ["48.85837"; "2.29448"].
Proof.
  split; [|reflexivity].
  pose proof (precision_lost_beyond_table
    (sampleMap (mkLatLng (4885837 # 100000) (229448 # 100000)) 19 None)
    (4885837 # 100000) (229448 # 100000) 19 ltac:(lia)) as (_ & _ & _ & _ & _ & Hs & _).
  exact Hs.
Defined.

Lemma getHash_suffix_iff_moved_witness :
  getHash (sampleMap eiffel 12 (Some initialNear)) = "/map/0"
  /\ getHash (sampleMap eiffel 12 (Some initialFar)) = "/map/0/12/48.8584/2.2945".
Proof.
  split.
  - destruct (proj2 (getHash_suffix_iff_moved (sampleMap eiffel 12 (Some initialNear)))
                initialNear eq_refl) as [Hsame _].
    apply Hsame. eexists. split; reflexivity.
  - destruct (proj2 (getHash_suffix_iff_moved (sampleMap eiffel 12 (Some initialFar)))
                initialFar eq_refl) as [_ Hmoved].
    apply Hmoved.
    intros (c0 & Hc & Hs). injection Hc as <-. vm_compute in Hs. discriminate.
Defined.

Lemma getHash_without_initial_center_witness :
  getHash (sampleMap eiffel 12 (Some initialNoCenter)) = "/map/0/12/48.8584/2.2945"
  /\ getHash (initView (CArray NaN (Fin (229448 # 100000))) (Some (Fin 12%Z)) false
                (sampleMap eiffel 12 None))
     = "/map/0/12/48.8584/2.2945".
Proof.
  destruct (getHash_without_initial_center (sampleMap eiffel 12 (Some initialNoCenter))
              (Some 12%Z) eq_refl) as (Hsuffix & _ & Hinit).
  split; [exact Hsuffix|].
  destruct (Hinit (CArray NaN (Fin (229448 # 100000))) (Some (Fin 12%Z))
              (sampleMap eiffel 12 None)) as (_ & _ & Hhash & _).
  - right. exists NaN, (Fin (229448 # 100000)). split; [reflexivity | left; reflexivity].
  - exact Hhash.
Defined.

Lemma setView_autofit_witness :
  view (setView (CArray NaN (Fin (2 # 1))) (Some (Fin 5%Z)) false mapAtEiffel)
    = mkSampleView (mkLatLng 0 0) 12 400
  /\ view (initView (CArray NaN (Fin (2 # 1))) (Some (Fin 5%Z)) true mapAtEiffel)
    = mkSampleView (mkLatLng 0 0) 5 400.
Proof.
  destruct (setView_autofit mapAtEiffel (CArray NaN (Fin (2 # 1))) (Some (Fin 5%Z)) false eq_refl)
    as (_ & Hview & Hinit & _).
  split; [exact Hview | exact (Hinit 5%Z)].
Defined.

(** The claim C1 as it is worded: the zoom of the request is reapplied. *)
Lemma setView_requested_zoom_not_reapplied :
  ~ (forall (m : KMap sampleView) (center : centerArg) (z : Z) (save : bool),
       resolveCenter center = None ->
       view (setView center (Some (Fin z)) save m) = setZoom z (fitted m)).
Proof.
  intros Hclaim.
  specialize (Hclaim mapWithoutZoom CUndefined 5%Z false eq_refl).
  vm_compute in Hclaim. discriminate.
Qed.

Lemma setView_persists_only_when_visible_witness :
  (_initialPosition (setView CUndefined None true mapAtEiffel)
     = Some (mkPosition (Some (mkLatLng 0 0)) (Some 12%Z))
   /\ data (setView CUndefined None true mapAtEiffel) = Some (mkAttrs 12 0 0))
  /\ (_initialPosition (setView CUndefined None true hiddenMap) = Some initialNear
      /\ data (setView CUndefined None true hiddenMap) = None).
Proof.
  destruct (setView_persists_only_when_visible mapAtEiffel CUndefined None)
    as (_ & _ & Hwrite).
  destruct (setView_persists_only_when_visible hiddenMap CUndefined None)
    as (Hskip & _ & _).
  split; [exact (Hwrite eq_refl eq_refl) | exact (Hskip eq_refl)].
Defined.

Lemma initialPosition_replaced_by_persisting_witness :
  _initialPosition mapAtEiffel = Some initialNear
  /\ _initialPosition (setView CUndefined None true mapAtEiffel)
     = Some (mkPosition (Some (mkLatLng 0 0)) (Some 12%Z))
  /\ _initialPosition (setView CUndefined None true hiddenMap) = Some initialNear.
Proof.
  destruct (initialPosition_replaced_by_persisting mapAtEiffel initialNear
              CUndefined None true eq_refl) as (_ & Hwrite & _).
  destruct (initialPosition_replaced_by_persisting hiddenMap initialNear
              CUndefined None true eq_refl) as (Hkeep & _).
  split; [reflexivity|]. split.
  - exact (Hwrite eq_refl eq_refl eq_refl).
  - apply Hkeep. right. right. reflexivity.
Defined.

(** The claim C8 as it is worded: once set, no later [setView] changes
    the initial position. *)
Lemma initialPosition_not_immutable :
  ~ (forall (m : KMap sampleView) (p : position) (center : centerArg)
            (zoom : zoomArg) (save : bool),
       _initialPosition m = Some p ->
       _initialPosition (setView center zoom save m) = Some p).
Proof.
  intros Hclaim.
  specialize (Hclaim expandedFrame (mkPosition None None) CUndefined None true eq_refl).
  vm_compute in Hclaim. discriminate.
Qed.

Lemma toggleStaticState_rule_witness :
  log (toggleStaticState 480 freshFrame)
    = [SleepMap; SleepDisable; ScrollWheelZoomDisable; ToggleClassStatic true]
  /\ toggleStaticState 480 (toggleStaticState 480 freshFrame)
     = toggleStaticState 480 freshFrame
  /\ log (toggleStaticState 1280 (toggleStaticState 480 freshFrame))
     = [SleepMap; SleepDisable; ScrollWheelZoomDisable; ToggleClassStatic true;
        SleepEnable; ToggleClassStatic false]
  /\ _static (toggleStaticState 599 freshFrame) = Some true
  /\ _static (toggleStaticState 600 freshFrame) = Some false
  /\ wheelZoomEnabled true (log (toggleStaticState 1280 (toggleStaticState 480 freshFrame)))
     = wheelZoomEnabled true (log (toggleStaticState 480 freshFrame)).
Proof.
  destruct (toggleStaticState_rule 480 freshFrame)
    as (_ & _ & _ & Hidem & Henter & _).
  destruct (toggleStaticState_rule 1280 (toggleStaticState 480 freshFrame))
    as (_ & _ & _ & _ & _ & Hleave & _ & _ & _ & Hwheel & _).
  destruct (toggleStaticState_rule 599 freshFrame) as (_ & H599 & _).
  destruct (toggleStaticState_rule 600 freshFrame) as (_ & H600 & _).
  split; [apply Henter; [discriminate | reflexivity]|].
  split; [exact Hidem|].
  split; [apply Hleave; [discriminate | reflexivity]|].
  split; [exact H599|]. split; [exact H600|].
  apply Hwheel; [discriminate | reflexivity].
Defined.

(** The claim C6 as it is written fails where a map that went static
    becomes interactive again: the calls of [toggleStaticState] are then
    [sleep.enable()] and the class toggle, none of them on wheel zoom, which
    the static branch had disabled and which stays disabled. *)
Lemma entering_interactive_keeps_wheel_zoom_disabled :
  let static := toggleStaticState 480 freshFrame in
  let interactive := toggleStaticState 1280 static in
  _static static = Some true
  /\ _static interactive = Some false
  /\ log static = [SleepMap; SleepDisable; ScrollWheelZoomDisable; ToggleClassStatic true]
  /\ log interactive = (log static ++ [SleepEnable; ToggleClassStatic false])%list
  /\ existsb onScrollWheelZoom [SleepEnable; ToggleClassStatic false] = false
  /\ wheelZoomEnabled true (log static) = false
  /\ wheelZoomEnabled true (log interactive) = false.
Proof. repeat split. Qed.

Lemma initialization_always_completes_witness :
  exists m n',
    initialize (Some "https://maps.wikimedia.org") 1280 frameOptions
      (Resolved [towerGroup; riverGroup; missingGroup]) Rejected 0 = Some (m, n')
    /\ _kartographer_ready m = true
    /\ size (dataLayers m) = 2%nat
    /\ length (layers m) = 3%nat
    /\ LogWarn "missing" ∈ log m.
Proof.
  destruct (initialization_always_completes "https://maps.wikimedia.org" 1280
              frameOptions (Resolved [towerGroup; riverGroup; missingGroup]) Rejected 0)
    as (_ & _ & _ & _ & Hthree).
  - discriminate.
  - reflexivity.
  - left. reflexivity.
  - apply (Hthree "tower" ["river"; "missing"] [towerGroup; riverGroup; missingGroup]
             towerGroup riverGroup missingGroup);
      try reflexivity.
    discriminate.
Defined.

(** C5.  The claim fails on the code where the map carries inline data
    and the load of that data is rejected: the data groups load,
    [addDataLayer] is called, and since [initialize] gives its promise no
    rejection handler [ready] is never called; the map stays not ready and
    without a position, and nothing is logged about it.  With the same
    options, a rejected call for the data groups goes through the rejection
    handler of [initialize], which calls [ready]; and with both loads
    resolved the map is ready as well. *)
Theorem initialize_stalls_on_rejected_inline_data :
  (exists m,
     initialize (Some "https://maps.wikimedia.org") 1280 inlineOptions
       (Resolved [towerGroup]) Rejected 0 = Some (m, 0%nat)
     /\ _kartographer_ready m = false
     /\ _initialPosition m = None
     /\ log m = [AddHandlerSleep; SleepEnable; ToggleClassStatic false;
                 LoadGroups ["tower"]; AddAttribution "OpenStreetMap"; LoadInline])
  /\ (exists m,
        initialize (Some "https://maps.wikimedia.org") 1280 inlineOptions
          Rejected Rejected 0 = Some (m, 0%nat)
        /\ _kartographer_ready m = true
        /\ log m = [AddHandlerSleep; SleepEnable; ToggleClassStatic false;
                    LoadGroups ["tower"]; LogError])
  /\ (exists m,
        initialize (Some "https://maps.wikimedia.org") 1280 inlineOptions
          (Resolved [towerGroup]) (Resolved [towerGroup]) 0 = Some (m, 1%nat)
        /\ _kartographer_ready m = true
        /\ size (dataLayers m) = 2%nat).
Proof.
  split; [|split]; eexists; (split; [vm_compute; reflexivity|]); repeat split.
Qed.


(** Expanding a collapsed section: the view is fitted to the marker and,
    the container being visible now, remembered as the initial position. *)
Example expanding_replaces_initial_position :
  _initialPosition (invalidateSizeAndSetInitialView collapsedFrame)
    = Some (mkPosition None None)
  /\ (zoom <$> _initialPosition (invalidateSizeAndSetInitialView expandedFrame))
    = Some (Some 10%Z)
  /\ (center <$> _initialPosition (invalidateSizeAndSetInitialView expandedFrame))
    <> Some None.
Proof. split; [reflexivity|]. split; [reflexivity|]. vm_compute. discriminate. Qed.

(** * Further properties of the code *)

(** ** The bounds fitter on whole layer trees *)

Lemma Qle_bool_min (lo a b : Q) :
  Qle_bool lo (Math_min a b) = Qle_bool lo a && Qle_bool lo b.
Proof.
  unfold Math_min. apply eq_true_iff_eq.
  rewrite andb_true_iff. destruct (Qle_bool a b) eqn:Hab.
  - rewrite !Qle_bool_iff. apply Qle_bool_iff in Hab.
    split; [intros Ha; split; [exact Ha | eapply Qle_trans; eassumption] | tauto].
  - rewrite !Qle_bool_iff.
    assert (Hba : (b <= a)%Q).
    { apply Qlt_le_weak, Qnot_le_lt. intros Hle.
      apply Qle_bool_iff in Hle. congruence. }
    split; [intros Hb; split; [eapply Qle_trans; eassumption | exact Hb] | tauto].
Qed.

Lemma Qle_bool_max (hi a b : Q) :
  Qle_bool (Math_max a b) hi = Qle_bool a hi && Qle_bool b hi.
Proof.
  unfold Math_max. apply eq_true_iff_eq.
  rewrite andb_true_iff. destruct (Qle_bool a b) eqn:Hab.
  - rewrite !Qle_bool_iff. apply Qle_bool_iff in Hab.
    split; [intros Hb; split; [eapply Qle_trans; eassumption | exact Hb] | tauto].
  - rewrite !Qle_bool_iff.
    assert (Hba : (b <= a)%Q).
    { apply Qlt_le_weak, Qnot_le_lt. intros Hle.
      apply Qle_bool_iff in Hle. congruence. }
    split; [intros Ha; split; [exact Ha | eapply Qle_trans; eassumption] | tauto].
Qed.

(** A rectangle extended by another lies inside a third exactly when
    both do. *)
Lemma contains_extend (w b c : box) (v : value) :
  corners v = Some c ->
  exists u, extend (Some b) v = Some u
            /\ contains w u = contains w b && contains w c.
Proof.
  intros Hc. unfold extend. rewrite Hc.
  destruct c as [sw2 ne2], b as [sw ne], w as [wsw wne].
  eexists. split; [reflexivity|].
  unfold contains. cbn [lat lng].
  rewrite !Qle_bool_min, !Qle_bool_max.
  destruct (Qle_bool (lat wsw) (lat sw2)), (Qle_bool (lat wsw) (lat sw)),
           (Qle_bool (lat ne2) (lat wne)), (Qle_bool (lat ne) (lat wne)),
           (Qle_bool (lng wsw) (lng sw2)), (Qle_bool (lng wsw) (lng sw)),
           (Qle_bool (lng ne2) (lng wne)), (Qle_bool (lng ne) (lng wne));
    reflexivity.
Qed.

Lemma fits_extend (b : LatLngBounds) (v : value) :
  fits (extend b v) = fits b && fits (corners v).
Proof.
  destruct (corners v) as [c|] eqn:Hc.
  - destruct b as [b|].
    + destruct (contains_extend worldLatLng b c v Hc) as (u & -> & Hu). exact Hu.
    + unfold extend. rewrite Hc. destruct c. reflexivity.
  - unfold extend. rewrite Hc. cbn. rewrite andb_true_r. reflexivity.
Qed.

Lemma extend_is_Some (b : LatLngBounds) (v : value) (c : box) :
  corners v = Some c -> isValid (extend b v) = true.
Proof.
  intros Hc. unfold extend. rewrite Hc. destruct c, b as [[sw ne]|]; reflexivity.
Qed.

Lemma extend_nothing (b : LatLngBounds) (v : value) :
  corners v = None -> extend b v = b.
Proof. intros Hc. unfold extend. rewrite Hc. reflexivity. Qed.

Lemma fits_boundsOf (ps : list LatLng) (b : LatLngBounds) :
  fits (boundsOf ps b) = fits b && forallb pointInWorld ps.
Proof.
  revert b. induction ps as [|p ps IH]; intros b.
  - cbn. rewrite andb_true_r. reflexivity.
  - cbn [boundsOf fold_left forallb]. fold (boundsOf ps (extend b (VLatLng p))).
    rewrite IH, fits_extend. cbn [corners fits]. fold (pointInWorld p).
    rewrite andb_assoc. reflexivity.
Qed.

Lemma boundsOf_is_Some (ps : list LatLng) (b : LatLngBounds) :
  isValid b = true \/ ps <> [] -> isValid (boundsOf ps b) = true.
Proof.
  revert b. induction ps as [|p ps IH]; intros b [Hb|Hps].
  - exact Hb.
  - congruence.
  - cbn [boundsOf fold_left]. apply IH. left.
    apply (extend_is_Some b (VLatLng p) (mkBox p p)). reflexivity.
  - cbn [boundsOf fold_left]. apply IH. left.
    apply (extend_is_Some b (VLatLng p) (mkBox p p)). reflexivity.
Qed.

Lemma fits_boundsOfRings (rs : list ring) (b : LatLngBounds) :
  fits (boundsOfRings rs b) = fits b && forallb pointInWorld (flat_map points rs).
Proof.
  revert b. induction rs as [|r rs IH]; intros b.
  - cbn. rewrite andb_true_r. reflexivity.
  - cbn [boundsOfRings fold_left flat_map].
    fold (boundsOfRings rs (extend b (VBounds (boundsOf (points r) None)))).
    rewrite IH, fits_extend. cbn [corners]. rewrite fits_boundsOf.
    rewrite forallb_app. cbn [fits]. rewrite andb_true_l, andb_assoc. reflexivity.
Qed.

Lemma boundsOfRings_is_Some (rs : list ring) (b : LatLngBounds) :
  isValid b = true \/ rs <> [] -> isValid (boundsOfRings rs b) = true.
Proof.
  revert b. induction rs as [|r rs IH]; intros b [Hb|Hrs].
  - exact Hb.
  - congruence.
  - cbn [boundsOfRings fold_left]. apply IH. left.
    destruct (boundsOf (points r) None) as [c|] eqn:Hc.
    + apply (extend_is_Some b _ c). reflexivity.
    + rewrite extend_nothing by reflexivity. exact Hb.
  - cbn [boundsOfRings fold_left]. apply IH. left.
    pose proof (boundsOf_is_Some (points r) None) as Hr.
    destruct (boundsOf (points r) None) as [c|] eqn:Hc.
    + apply (extend_is_Some b _ c). reflexivity.
    + discriminate Hr. right. destruct r. discriminate.
Qed.

(** Induction over a tree of layers. *)
Lemma layer_tree_ind (P : layer -> Prop) :
  (forall p, P (Marker p)) ->
  (forall path, P (Polyline path)) ->
  (forall outer holes, P (Polygon outer holes)) ->
  P TileLayer ->
  (forall children, Forall P children -> P (LayerGroup children)) ->
  forall l, P l.
Proof.
  intros Hm Hl Hp Ht Hg.
  fix IH 1. intros [p|path|outer holes|children|].
  - apply Hm.
  - apply Hl.
  - apply Hp.
  - apply Hg. induction children as [|c cs IHcs]; constructor; [apply IH | exact IHcs].
  - apply Ht.
Qed.

Lemma inWorld_fits (v : value) : inWorld v = true -> fits (corners v) = true.
Proof. unfold inWorld. destruct (corners v); [tauto | reflexivity]. Qed.

Lemma validateBounds_fits (l : layer) : fits (corners (validateBounds l)) = true.
Proof.
  unfold validateBounds.
  match goal with |- context [if inWorld ?v then _ else _] =>
    destruct (inWorld v) eqn:Hown end.
  - apply inWorld_fits, Hown.
  - destruct l as [p|path|outer holes|children|]; try reflexivity.
    destruct (getLatLngs outer holes !! 1%nat); [|reflexivity].
    match goal with |- context [if inWorld ?v then _ else _] =>
      destruct (inWorld v) eqn:Hsub end; [apply inWorld_fits, Hsub | reflexivity].
Qed.

Lemma fold_extend_fits (children : list layer) (b : LatLngBounds) :
  Forall (fun c => fits (getValidBounds c) = true) children ->
  fits b = true ->
  fits (fold_left (fun layerBounds child =>
                     extend layerBounds (VBounds (getValidBounds child)))
                  children b) = true.
Proof.
  intros Hall. revert b. induction Hall as [|c cs Hc _ IH]; intros b Hb; [exact Hb|].
  cbn [fold_left]. apply IH. rewrite fits_extend, Hb. exact Hc.
Qed.

(** X1.  Whatever the layers are, the bounds that [getValidBounds]
    returns, when valid, lie inside the world envelope. *)
Theorem getValidBounds_in_world (l : layer) (b : box) :
  getValidBounds l = Some b ->
  contains worldLatLng b = true
  /\ (-90 <= lat (southWest b) /\ lat (northEast b) <= 90 /\
      -180 <= lng (southWest b) /\ lng (northEast b) <= 180)%Q.
Proof.
  intros Hb.
  assert (Hfits : forall l', fits (getValidBounds l') = true).
  { induction l' as [p|path|outer holes| |children IH] using layer_tree_ind;
      try (cbn [getValidBounds]; rewrite fits_extend; apply validateBounds_fits).
    cbn [getValidBounds]. apply fold_extend_fits; [exact IH | reflexivity]. }
  specialize (Hfits l). rewrite Hb in Hfits. cbn in Hfits.
  split; [exact Hfits | apply contains_world_spec, Hfits].
Qed.

Lemma getValidBounds_in_world_witness :
  getValidBounds sampleTree
    = Some (mkBox (mkLatLng 1 2) (mkLatLng (4885837 # 100000) 8))
  /\ contains worldLatLng (mkBox (mkLatLng 1 2) (mkLatLng (4885837 # 100000) 8)) = true.
Proof.
  split; [reflexivity|].
  apply (getValidBounds_in_world sampleTree
           (mkBox (mkLatLng 1 2) (mkLatLng (4885837 # 100000) 8)) eq_refl).
Defined.

Lemma fold_extend_filter (children : list layer) (b : LatLngBounds) :
  fold_left (fun layerBounds child =>
               extend layerBounds (VBounds (getValidBounds child))) children b
  = fold_left (fun layerBounds child =>
                 extend layerBounds (VBounds (getValidBounds child)))
      (filter (fun c => contributes c = true) children) b.
Proof.
  revert b. induction children as [|c cs IH]; intros b; [reflexivity|].
  cbn [fold_left]. destruct (contributes c) eqn:Hc.
  - rewrite filter_cons_True by exact Hc. cbn [fold_left]. apply IH.
  - rewrite filter_cons_False by congruence.
    unfold contributes in Hc. destruct (getValidBounds c); [discriminate|].
    rewrite extend_nothing by reflexivity. apply IH.
Qed.

Lemma fold_extend_None (children : list layer) (b : LatLngBounds) :
  fold_left (fun layerBounds child =>
               extend layerBounds (VBounds (getValidBounds child))) children b = None
  <-> b = None /\ Forall (fun c => getValidBounds c = None) children.
Proof.
  revert b. induction children as [|c cs IH]; intros b.
  - cbn. split; [intros ->; split; [reflexivity | constructor] | tauto].
  - cbn [fold_left]. rewrite IH. rewrite Forall_cons.
    destruct (getValidBounds c) as [u|] eqn:Hc.
    + pose proof (extend_is_Some b (VBounds (Some u)) u eq_refl) as Hs.
      split; [intros [He _]; rewrite He in Hs; discriminate
             | intros (_ & Hu & _); discriminate].
    + rewrite extend_nothing by reflexivity. tauto.
Qed.

(** X2.  In a group, the children without valid bounds contribute
    nothing: the group has the bounds of its contributing children alone,
    and it has no valid bounds exactly when no child has. *)
Theorem invalid_children_contribute_nothing (children : list layer) :
  getValidBounds (LayerGroup children)
    = getValidBounds (LayerGroup (filter (fun c => contributes c = true) children))
  /\ (getValidBounds (LayerGroup children) = None
      <-> Forall (fun c => getValidBounds c = None) children)
  /\ (forall before after outlier,
        children = (before ++ outlier :: after)%list ->
        getValidBounds outlier = None ->
        getValidBounds (LayerGroup children)
          = getValidBounds (LayerGroup (before ++ after))).
Proof.
  split; [|split].
  - cbn [getValidBounds]. apply fold_extend_filter.
  - cbn [getValidBounds]. rewrite fold_extend_None. tauto.
  - intros before after outlier -> Hout. cbn [getValidBounds].
    rewrite !fold_left_app. cbn [fold_left]. rewrite Hout.
    rewrite extend_nothing by reflexivity. reflexivity.
Qed.

Lemma invalid_children_contribute_nothing_witness :
  getValidBounds (LayerGroup [Polygon geomask_outer [geomask_hole]; Polyline strayLine])
    = getValidBounds (LayerGroup [Polygon geomask_outer [geomask_hole]])
  /\ getValidBounds (LayerGroup [Polyline strayLine; TileLayer]) = None.
Proof.
  destruct (invalid_children_contribute_nothing
              [Polygon geomask_outer [geomask_hole]; Polyline strayLine])
    as (_ & _ & Hdrop).
  destruct (invalid_children_contribute_nothing [Polyline strayLine; TileLayer])
    as (_ & Hnone & _).
  split.
  - apply (Hdrop [Polygon geomask_outer [geomask_hole]] [] (Polyline strayLine));
      reflexivity.
  - apply Hnone. repeat constructor.
Defined.

Lemma inWorld_bounds (b : LatLngBounds) :
  isValid b = true -> inWorld (VBounds b) = fits b.
Proof. destruct b; [reflexivity | discriminate]. Qed.

Lemma getValidBounds_path (l : layer) (own : LatLngBounds) :
  getBounds l = Some own -> isValid own = true -> fits own = true ->
  getValidBounds l = own.
Proof.
  intros Hb Hv Hf.
  assert (Hval : validateBounds l = VBounds own).
  { unfold validateBounds. rewrite Hb, inWorld_bounds, Hf by exact Hv. reflexivity. }
  destruct l; try discriminate Hb;
    cbn [getValidBounds]; rewrite Hval; apply extend_None_bounds.
Qed.

(** X3.  A marker, line or polygon all of whose positions lie inside the
    world envelope contributes its own bounding box.  With a position
    outside, a marker, a line and a polygon of one ring contribute nothing;
    a polygon with further rings contributes the bounds of those rings when
    all their positions are inside, and nothing otherwise. *)
Theorem leaf_bounds_by_positions (l : layer) :
  positions l <> [] ->
  (forallb pointInWorld (positions l) = true ->
     getValidBounds l = boundsOf (positions l) None
     /\ isValid (getValidBounds l) = true)
  /\ (forallb pointInWorld (positions l) = false ->
      (forall outer holes, l = Polygon outer holes -> holes = []) ->
      getValidBounds l = None)
  /\ (forall outer holes,
        l = Polygon outer holes -> holes <> [] ->
        forallb pointInWorld (positions l) = false ->
        getValidBounds l =
          if forallb pointInWorld (flat_map points holes)
          then boundsOfRings holes None else None).
Proof.
  intros Hpos. split; [|split].
  - intros Hin.
    destruct l as [p|path|outer holes|children|]; try (cbn in Hpos; congruence).
    + cbn [positions forallb] in Hin. rewrite andb_true_r in Hin.
      cbn [getValidBounds]. unfold validateBounds. cbn [getBounds getLatLng].
      change (inWorld (VLatLng p)) with (pointInWorld p). rewrite Hin.
      split; reflexivity.
    + cbn [positions] in *.
      assert (Hv : isValid (boundsOf (points path) None) = true)
        by (apply boundsOf_is_Some; right; destruct path; discriminate).
      rewrite (getValidBounds_path (Polyline path) _ eq_refl Hv).
      * split; [reflexivity | exact Hv].
      * rewrite fits_boundsOf. exact Hin.
    + cbn [positions] in *.
      assert (Hv : isValid (boundsOf (flat_map points (outer :: holes)) None) = true)
        by (apply boundsOf_is_Some; right; exact Hpos).
      rewrite (getValidBounds_path (Polygon outer holes) _ eq_refl Hv).
      * split; [reflexivity | exact Hv].
      * rewrite fits_boundsOf. exact Hin.
  - intros Hout Hone.
    destruct l as [p|path|outer holes|children|]; try (cbn in Hpos; congruence).
    + cbn [positions forallb] in Hout. rewrite andb_true_r in Hout.
      cbn [getValidBounds]. unfold validateBounds. cbn [getBounds getLatLng].
      change (inWorld (VLatLng p)) with (pointInWorld p). rewrite Hout. reflexivity.
    + cbn [positions] in *. cbn [getValidBounds]. unfold validateBounds.
      cbn [getBounds]. rewrite inWorld_bounds, fits_boundsOf, Hout;
        [reflexivity | apply boundsOf_is_Some; right; exact Hpos].
    + rewrite (Hone outer holes eq_refl) in *.
      cbn [positions] in *. cbn [getValidBounds]. unfold validateBounds.
      cbn [getBounds]. rewrite inWorld_bounds, fits_boundsOf, Hout;
        [reflexivity | apply boundsOf_is_Some; right; exact Hpos].
  - intros outer holes -> Hholes Hout. cbn [positions] in Hout.
    cbn [getValidBounds]. unfold validateBounds. cbn [getBounds].
    rewrite inWorld_bounds, fits_boundsOf, Hout
      by (apply boundsOf_is_Some; right; exact Hpos).
    cbn [andb]. destruct holes as [|h hs]; [congruence|].
    cbn [getLatLngs lookup list_lookup drop].
    rewrite inWorld_bounds by (apply boundsOfRings_is_Some; right; discriminate).
    rewrite fits_boundsOfRings. cbn [fits andb].
    destruct (forallb pointInWorld (flat_map points (h :: hs)));
      [apply extend_None_bounds | reflexivity].
Qed.

Lemma leaf_bounds_by_positions_witness :
  getValidBounds (Polyline (mkLatLng 1 2, [mkLatLng 3 5; mkLatLng 2 8]))
    = Some (mkBox (mkLatLng 1 2) (mkLatLng 3 8))
  /\ getValidBounds (Polyline strayLine) = None.
Proof.
  destruct (leaf_bounds_by_positions (Polyline (mkLatLng 1 2, [mkLatLng 3 5; mkLatLng 2 8])))
    as ([Hown _]%(fun H => H eq_refl) & _); [discriminate|].
  destruct (leaf_bounds_by_positions (Polyline strayLine)) as (_ & Hnone & _);
    [discriminate|].
  split; [exact Hown|].
  apply Hnone; [reflexivity | discriminate].
Defined.

(** ** Placing the view *)

Section PlacingProperties.
Context {V : Type} `{Surface V}.

(** X4.  Without a center, [setView] fits the whole world when no layer
    of the map has valid bounds (a map with its tile layer only, say), and
    it fits the bounds of the one layer that has, whatever invalid layers
    stand beside it. *)
Theorem setView_fits_contributing_layers
    (m : KMap V) (center : centerArg) (zoom : zoomArg) (save : bool) :
  resolveCenter center = None ->
  (Forall (fun l => getValidBounds l = None) (layers m) ->
     view (setView center zoom save m) = reapplyInitialZoom m (fitWorld (view m)))
  /\ (forall before after l b,
        layers m = (before ++ l :: after)%list ->
        Forall (fun l' => getValidBounds l' = None) before ->
        Forall (fun l' => getValidBounds l' = None) after ->
        getValidBounds l = Some b ->
        view (setView center zoom save m) = reapplyInitialZoom m (fitBounds b (view m))).
Proof.
  intros Hr.
  assert (Hview : view (setView center zoom save m) = reapplyInitialZoom m (fitted m)).
  { rewrite (setView_autofit_view m center zoom save Hr). unfold reapplyInitialZoom.
    destruct (_initialPosition m) as [[c [z|]]|]; reflexivity. }
  rewrite Hview. split.
  - intros Hnone. unfold fitted, getValidBoundsMap. cbn [getValidBounds].
    rewrite (proj2 (fold_extend_None (layers m) None)); [reflexivity|].
    split; [reflexivity | exact Hnone].
  - intros before after l b Hl Hb Ha Hlb. unfold fitted, getValidBoundsMap.
    rewrite Hl. cbn [getValidBounds]. rewrite fold_left_app. cbn [fold_left].
    rewrite (proj2 (fold_extend_None before None)) by (split; [reflexivity | exact Hb]).
    rewrite Hlb. cbn [extend corners].
    replace (fold_left _ after _) with (Some b); [reflexivity|].
    clear Hl. induction Ha as [|a after Ha _ IH]; [destruct b; reflexivity|].
    cbn [fold_left]. rewrite Ha.
    rewrite extend_nothing by reflexivity. destruct b. exact IH.
Qed.

(** X5.  When a center resolves, [setView] places the view there, at the
    requested zoom or at the fallback zoom when the zoom is absent or
    [NaN]; the layers play no part, and nothing is persisted even when
    persist is requested in a visible container. *)
Theorem setView_direct (m : KMap V) (center : centerArg) (zoom : zoomArg)
    (save : bool) (c : LatLng) :
  resolveCenter center = Some c ->
  view (setView center zoom save m)
    = L_setView c (default (fallbackZoom m) (resolveZoom zoom)) (view m)
  /\ (isNaN zoom = true ->
      view (setView center zoom save m) = L_setView c (fallbackZoom m) (view m))
  /\ _initialPosition (setView center zoom save m) = _initialPosition m
  /\ data (setView center zoom save m) = data m
  /\ (forall ls : list layer,
        view (setView center zoom save (set_layers ls m))
        = view (setView center zoom save m)).
Proof.
  intros Hr. unfold setView. rewrite Hr. cbn [view set_view _initialPosition data].
  split; [destruct (resolveZoom zoom); reflexivity|].
  split; [intros Hnan; destruct zoom as [[|z]|]; [reflexivity|discriminate|reflexivity]|].
  repeat split.
Qed.

Lemma getHash_bare (m : KMap V) :
  _initialPosition m
    = Some (mkPosition (Some (getCenter (view m))) (Some (getZoom (view m)))) ->
  wrap (getCenter (view m)) = getCenter (view m) ->
  getHash m = fullScreenRoute m.
Proof.
  intros Hi Hw. unfold getHash. rewrite Hi. unfold getMapPosition.
  cbn [fst snd center zoom]. rewrite Hw.
  case_decide as Hd; [|reflexivity]. exfalso. apply Hd. reflexivity.
Qed.

(** X6.  After an auto-fit that persists, the hash carries no position:
    [getHash] is the route alone, as long as the center of the view needs no
    wrapping.  The same holds when the fit is reached through [initView]. *)
Theorem getHash_after_persisting (m : KMap V) (center : centerArg) (zoom : zoomArg) :
  resolveCenter center = None ->
  visible m = true ->
  (wrap (getCenter (view (setView center zoom true m)))
     = getCenter (view (setView center zoom true m)) ->
   getHash (setView center zoom true m) = fullScreenRoute m)
  /\ (wrap (getCenter (view (initView center zoom true m)))
        = getCenter (view (initView center zoom true m)) ->
      getHash (initView center zoom true m) = fullScreenRoute m).
Proof.
  intros Hr Hvis.
  pose proof getHash_bare as Hbare.
  assert (Hroute : forall c z s (m' : KMap V),
            fullScreenRoute (setView c z s m') = fullScreenRoute m').
  { intros c z s m'. unfold setView. destruct (resolveCenter c); [reflexivity|].
    cbn -[getValidBoundsMap]. destruct (visible m' && s); reflexivity. }
  split.
  - intros Hwrap.
    rewrite (Hbare (setView center zoom true m)); [apply Hroute| |exact Hwrap].
    apply (setView_persists m center zoom Hr Hvis).
  - unfold initView. rewrite Hr. cbn [centerOf].
    set (m0 := initView_store center zoom m). intros Hwrap.
    rewrite (Hbare (setView CUndefined (zoomOf (resolveZoom zoom)) true m0));
      [rewrite Hroute; reflexivity| |exact Hwrap].
    apply (setView_persists m0 CUndefined _ eq_refl Hvis).
Qed.

End PlacingProperties.

Lemma setView_fits_contributing_layers_witness :
  view (setView CUndefined None false freshFrame)
    = fitWorld (view freshFrame)
  /\ view (setView CUndefined None false treeFrame)
    = fitBounds (mkBox (mkLatLng 1 2) (mkLatLng (4885837 # 100000) 8)) (view treeFrame).
Proof.
  destruct (setView_fits_contributing_layers freshFrame CUndefined None false eq_refl)
    as [Hworld _].
  destruct (setView_fits_contributing_layers treeFrame CUndefined None false eq_refl)
    as [_ Hone].
  split.
  - apply Hworld. repeat constructor.
  - apply (Hone [TileLayer] [] sampleTree); try reflexivity; repeat constructor.
Defined.

Lemma setView_direct_witness :
  view (setView (CArray (Fin (4885837 # 100000)) (Fin (229448 # 100000)))
          (Some NaN) true mapAtEiffel)
    = mkSampleView eiffel 13 400.
Proof.
  destruct (setView_direct mapAtEiffel
              (CArray (Fin (4885837 # 100000)) (Fin (229448 # 100000)))
              (Some NaN) true eiffel eq_refl) as (_ & Hfallback & _).
  exact (Hfallback eq_refl).
Defined.

Lemma getHash_after_persisting_witness :
  getHash (setView CUndefined None true treeFrame) = "/map/0"
  /\ getHash (setView CUndefined None false treeFrame) <> "/map/0".
Proof.
  destruct (getHash_after_persisting treeFrame CUndefined None eq_refl eq_refl)
    as [Hbare _].
  split; [exact (Hbare eq_refl)|].
  vm_compute. discriminate.
Defined.

(** ** The responsive mode over time *)

Section ResizeProperties.
Context {V : Type} `{Surface V}.

Lemma setView_control (m : KMap V) (c : centerArg) (z : zoomArg) (s : bool) :
  control (setView c z s m) = control m.
Proof.
  unfold setView. destruct (resolveCenter c); [reflexivity|].
  cbn -[getValidBoundsMap]. destruct (visible m && s); reflexivity.
Qed.

Lemma initView_control (m : KMap V) (c : centerArg) (z : zoomArg) (sv : bool) :
  control (initView c z sv m) = control m.
Proof.
  unfold initView. destruct sv; [|reflexivity].
  rewrite setView_control. reflexivity.
Qed.

Lemma addGeoJSONLayer_control (groupId : string) (g : geojson) (o : layerOptions)
    (m : KMap V) :
  control (addGeoJSONLayer groupId g o m) = control m.
Proof. unfold addGeoJSONLayer. destruct (featureLayer g); reflexivity. Qed.

Lemma copyLayers_control (parentMap m0 : KMap V) :
  control (copyLayers parentMap m0) = control m0.
Proof.
  unfold copyLayers.
  apply (map_fold_weak_ind (fun (r : KMap V) (_ : gmap string dataLayer) =>
    control r = control m0)); [reflexivity|].
  intros groupId l sub r _ Hr. rewrite addGeoJSONLayer_control. exact Hr.
Qed.

Lemma toggleStaticState_timer (w : Z) (m : KMap V) :
  _staticTimer (toggleStaticState w m) = _staticTimer m
  /\ fullscreen (toggleStaticState w m) = fullscreen m
  /\ alwaysInteractive (toggleStaticState w m) = alwaysInteractive m.
Proof.
  unfold toggleStaticState. case_decide; [repeat split|].
  destruct ((w <=? 480)%Z || (getSizeX (view m) + 200 >? w)%Z); repeat split.
Qed.

Lemma invalidateSize_responsive (m : KMap V) :
  fullscreen m = false -> alwaysInteractive m = false ->
  invalidateSize m = set_staticTimer true (set_view (L_invalidateSize (view m)) m).
Proof.
  intros Hf Ha. unfold invalidateSize. cbn [fullscreen alwaysInteractive set_view].
  rewrite Hf, Ha. reflexivity.
Qed.

Lemma resized_fields (n : nat) (m : KMap V) :
  fullscreen m = false -> alwaysInteractive m = false ->
  let resized := Nat.iter (S n) invalidateSize m in
  fullscreen resized = false /\ alwaysInteractive resized = false
  /\ _staticTimer resized = true /\ _static resized = _static m
  /\ log resized = log m
  /\ view resized = Nat.iter (S n) L_invalidateSize (view m).
Proof.
  intros Hf Ha. induction n as [|n IH].
  - cbn [Nat.iter nat_rect]. rewrite invalidateSize_responsive by assumption.
    repeat split; assumption.
  - destruct IH as (Hf' & Ha' & Ht & Hs & Hl & Hv).
    change (Nat.iter (S (S n)) invalidateSize m)
      with (invalidateSize (Nat.iter (S n) invalidateSize m)).
    change (Nat.iter (S (S n)) L_invalidateSize (view m))
      with (L_invalidateSize (Nat.iter (S n) L_invalidateSize (view m))).
    cbv zeta. rewrite invalidateSize_responsive by assumption.
    cbn [fullscreen alwaysInteractive _staticTimer _static log view
         set_staticTimer set_view].
    rewrite Hv. repeat split; assumption.
Qed.

(** X7.  On a map that is neither full screen nor always interactive,
    however many resizes come in a row they leave one timer pending and
    change neither the mode nor anything the handlers see; when the timer
    runs out the mode is computed once, from the size after the last resize,
    and the timer is spent: running out again does nothing. *)
Theorem resize_burst_one_evaluation (deviceWidth : Z) (n : nat) (m : KMap V) :
  fullscreen m = false -> alwaysInteractive m = false ->
  let resized := Nat.iter (S n) invalidateSize m in
  _staticTimer resized = true
  /\ _static resized = _static m
  /\ log resized = log m
  /\ _static (staticTimerFires deviceWidth resized)
     = Some (staticRule deviceWidth (Nat.iter (S n) L_invalidateSize (view m)))
  /\ _staticTimer (staticTimerFires deviceWidth resized) = false
  /\ staticTimerFires deviceWidth (staticTimerFires deviceWidth resized)
     = staticTimerFires deviceWidth resized.
Proof.
  intros Hf Ha resized.
  destruct (resized_fields n m Hf Ha) as (_ & _ & Ht & Hs & Hl & Hv).
  fold resized in Ht, Hs, Hl, Hv.
  assert (Hfire : staticTimerFires deviceWidth resized
                  = toggleStaticState deviceWidth (set_staticTimer false resized)).
  { unfold staticTimerFires. rewrite Ht. reflexivity. }
  assert (Hspent : _staticTimer (staticTimerFires deviceWidth resized) = false).
  { rewrite Hfire. destruct (toggleStaticState_timer deviceWidth
                               (set_staticTimer false resized)) as [-> _].
    reflexivity. }
  split; [exact Ht|]. split; [exact Hs|]. split; [exact Hl|]. split.
  - rewrite Hfire.
    destruct (toggleStaticState_static deviceWidth (set_staticTimer false resized))
      as [-> _].
    cbn [view set_staticTimer]. rewrite Hv. reflexivity.
  - split; [exact Hspent|].
    unfold staticTimerFires at 1. rewrite Hspent. reflexivity.
Qed.

Lemma sizeStep_fixed (m : KMap V) (e : sizeEvent) :
  (fullscreen m = true \/ alwaysInteractive m = true) -> _staticTimer m = false ->
  control (sizeStep m e) = control m /\ log (sizeStep m e) = log m.
Proof.
  intros Hfa Ht. destruct e as [|w]; cbn [sizeStep].
  - unfold invalidateSize. cbn [fullscreen alwaysInteractive set_view].
    destruct Hfa as [-> | ->]; [|rewrite andb_false_r]; split; reflexivity.
  - unfold staticTimerFires. rewrite Ht. split; reflexivity.
Qed.

(** X8.  A map that is full screen or always interactive, with no timer
    pending, never gets a mode: whatever resizes and timers follow, its
    static flag stays what it was, no timer is started and no handler is
    called. *)
Theorem fixed_maps_never_toggle (es : list sizeEvent) (m : KMap V) :
  (fullscreen m = true \/ alwaysInteractive m = true) -> _staticTimer m = false ->
  _static (sizeRun es m) = _static m
  /\ _staticTimer (sizeRun es m) = false
  /\ log (sizeRun es m) = log m.
Proof.
  revert m. induction es as [|e es IH]; intros m Hfa Ht.
  - repeat split. exact Ht.
  - unfold sizeRun. cbn [fold_left]. fold (sizeRun es (sizeStep m e)).
    destruct (sizeStep_fixed m e Hfa Ht) as [Hc Hl].
    injection Hc as Hf Ha _ _ _ Hs Htimer.
    destruct (IH (sizeStep m e)) as (IHs & IHt & IHl).
    + rewrite Hf, Ha. exact Hfa.
    + rewrite Htimer. exact Ht.
    + rewrite IHs, IHl, Hs, Hl. repeat split. exact IHt.
Qed.

End ResizeProperties.

Lemma resize_burst_one_evaluation_witness :
  log (Nat.iter 3 invalidateSize freshFrame) = []
  /\ _static (staticTimerFires 480 (Nat.iter 3 invalidateSize freshFrame)) = Some true
  /\ staticTimerFires 480 (staticTimerFires 480 (Nat.iter 3 invalidateSize freshFrame))
     = staticTimerFires 480 (Nat.iter 3 invalidateSize freshFrame).
Proof.
  destruct (resize_burst_one_evaluation 480 2 freshFrame eq_refl eq_refl)
    as (_ & _ & Hlog & Hmode & _ & Honce).
  split; [exact Hlog|]. split; [exact Hmode | exact Honce].
Defined.

Lemma fixed_maps_never_toggle_witness :
  fullscreen dialogMap = true
  /\ _static (sizeRun [Resized; TimerRunsOut 320; Resized; Resized; TimerRunsOut 320]
                dialogMap) = None
  /\ log (sizeRun [Resized; TimerRunsOut 320; Resized; Resized; TimerRunsOut 320]
            dialogMap) = log dialogMap.
Proof.
  destruct (fixed_maps_never_toggle
              [Resized; TimerRunsOut 320; Resized; Resized; TimerRunsOut 320] dialogMap)
    as (Hs & _ & Hl).
  - left. reflexivity.
  - reflexivity.
  - split; [reflexivity|]. split; [exact Hs | exact Hl].
Defined.

(** ** Waiting for readiness *)

Section ReadinessProperties.
Context {V : Type} `{Surface V}.

Lemma setView_set_listeners (l : list callback) (m : KMap V)
    (c : centerArg) (z : zoomArg) (s : bool) :
  setView c z s (set_listeners l m) = set_listeners l (setView c z s m).
Proof.
  unfold setView. cbn [view set_listeners fallbackZoom layers visible].
  unfold getInitialMapPosition. cbn [_initialPosition set_listeners].
  destruct (resolveCenter c); [reflexivity|].
  cbn -[getValidBoundsMap]. destruct (visible m && s); reflexivity.
Qed.

Lemma run_set_listeners (w : Z) (l : list callback) (m : KMap V) (cb : callback) :
  run w (set_listeners l m) cb = set_listeners l (run w m cb).
Proof.
  destruct cb as [requested]. unfold run, openFullScreen_ready.
  cbn [link fullScreenMap _updatingHash set_listeners].
  change (positionOrCurrent requested (set_listeners l m))
    with (positionOrCurrent requested m).
  destruct (link m).
  - destruct (_updatingHash m); [reflexivity|].
    rewrite setView_set_listeners. reflexivity.
  - destruct (fullScreenMap m) as [child|].
    + destruct (_updatingHash child); reflexivity.
    + cbn [_initialPosition set_fullScreenMap emit set_log set_listeners].
      destruct (_initialPosition m) as [[c z]|]; reflexivity.
Qed.

(** X9.  An [openFullScreen] that comes before the map is ready does
    nothing but wait; when the map becomes ready it takes effect, and the
    map is then what it would be had the call come right after readiness,
    the waiting callback apart. *)
Theorem open_before_ready_runs_at_ready (w : Z) (requested : option positionArg)
    (m : KMap V) :
  _kartographer_ready m = false -> listeners m = [] ->
  let waiting := openFullScreen w requested m in
  waiting = set_listeners [OpenFullScreen requested] m
  /\ fullScreenMap waiting = fullScreenMap m
  /\ log waiting = log m
  /\ fire_kartographerisready w waiting
     = set_listeners [OpenFullScreen requested]
         (openFullScreen w requested (fire_kartographerisready w m))
  /\ _kartographer_ready (fire_kartographerisready w waiting) = true.
Proof.
  intros Hready Hl waiting.
  assert (Hwait : waiting = set_listeners [OpenFullScreen requested] m).
  { unfold waiting, openFullScreen, doWhenReady. rewrite Hready, Hl. reflexivity. }
  split; [exact Hwait|]. rewrite Hwait.
  split; [reflexivity|]. split; [reflexivity|]. split.
  - unfold fire_kartographerisready. rewrite Hl.
    cbn [listeners set_listeners fold_left].
    unfold openFullScreen, doWhenReady. cbn [_kartographer_ready set_kartographer_ready].
    rewrite <- run_set_listeners. reflexivity.
  - unfold fire_kartographerisready. rewrite fold_run_ready. reflexivity.
Qed.

End ReadinessProperties.

Lemma open_before_ready_runs_at_ready_witness :
  log (openFullScreen 1280 None placedFrame) = []
  /\ log (fire_kartographerisready 1280 (openFullScreen 1280 None placedFrame))
     = [NewKartographerMap; RenderDialog]
  /\ log (openFullScreen 1280 None (fire_kartographerisready 1280 placedFrame))
     = [NewKartographerMap; RenderDialog].
Proof.
  destruct (open_before_ready_runs_at_ready 1280 None placedFrame eq_refl eq_refl)
    as (_ & _ & Hlog & Hfire & _).
  split; [exact Hlog|].
  rewrite Hfire. split; reflexivity.
Defined.

(** ** Registering data layers *)

Section RegisterProperties.
Context {V : Type} `{Surface V}.

Lemma existsb_isMalformed (geoJson : geojson) :
  existsb isMalformed geoJson = true <-> Malformed ∈ geoJson.
Proof.
  rewrite existsb_exists. split.
  - intros (f & Hin & Hf). destruct f; [discriminate|].
    apply list_elem_of_In. exact Hin.
  - intros Hin. exists Malformed. split; [apply list_elem_of_In, Hin | reflexivity].
Qed.

Lemma featureLayer_drawn (geoJson : geojson) :
  featureLayer geoJson
  = if existsb isMalformed geoJson then None
    else Some (LayerGroup (drawn geoJson)).
Proof.
  unfold featureLayer, drawn.
  assert (Hm : mapM drawable geoJson
               = if existsb isMalformed geoJson then None
                 else Some (omap drawable geoJson)).
  { induction geoJson as [|f g IH]; [reflexivity|].
    cbn [mapM omap list_omap existsb]. rewrite IH. destruct f as [l|]; cbn.
    - destruct (existsb isMalformed g); reflexivity.
    - reflexivity. }
  rewrite Hm. destruct (existsb isMalformed geoJson); reflexivity.
Qed.

(** X10.  [addGeoJSONLayer] registers the layer of a GeoJSON object all
    of whose features can be drawn under its group id, replacing what was
    there and touching no other entry; one malformed feature and nothing is
    registered or drawn: the failure is logged and goes no further. *)
Theorem addGeoJSONLayer_registers (groupId : string) (geoJson : geojson)
    (options : layerOptions) (m : KMap V) :
  (Malformed ∉ geoJson ->
     dataLayers (addGeoJSONLayer groupId geoJson options m) !! groupId
       = Some (mkDataLayer geoJson options (LayerGroup (drawn geoJson)))
     /\ (forall other, other <> groupId ->
           dataLayers (addGeoJSONLayer groupId geoJson options m) !! other
           = dataLayers m !! other)
     /\ layers (addGeoJSONLayer groupId geoJson options m)
        = (layers m ++ [LayerGroup (drawn geoJson)])%list
     /\ log (addGeoJSONLayer groupId geoJson options m)
        = (log m ++ [AddAttribution (opt_attribution options)])%list
     /\ (is_Some (dataLayers m !! groupId) ->
         size (dataLayers (addGeoJSONLayer groupId geoJson options m))
         = size (dataLayers m)))
  /\ (Malformed ∈ geoJson ->
      addGeoJSONLayer groupId geoJson options m = emit LogException m
      /\ dataLayers (addGeoJSONLayer groupId geoJson options m) = dataLayers m
      /\ layers (addGeoJSONLayer groupId geoJson options m) = layers m).
Proof.
  unfold addGeoJSONLayer. rewrite featureLayer_drawn. split.
  - intros Hok.
    assert (Hb : existsb isMalformed geoJson = false).
    { destruct (existsb isMalformed geoJson) eqn:Hex; [|reflexivity].
      apply existsb_isMalformed in Hex. contradiction. }
    rewrite Hb.
    cbn [dataLayers layers log set_dataLayers emit set_log set_layers].
    split; [apply lookup_insert_eq|].
    split; [intros other Hne; apply lookup_insert_ne; congruence|].
    split; [reflexivity|]. split; [reflexivity|].
    intros Hold. apply map_size_insert_Some. exact Hold.
  - intros Hbad. apply existsb_isMalformed in Hbad. rewrite Hbad. repeat split.
Qed.

End RegisterProperties.

Lemma addGeoJSONLayer_registers_witness :
  size (dataLayers (addGeoJSONLayer "tower" brokenGeoJSON
                      (mkLayerOptions "OpenStreetMap" None) readyFrame)) = 2%nat
  /\ (layer_geoJSON <$> dataLayers (addGeoJSONLayer "tower" (getGeoJSON riverGroup)
                        (mkLayerOptions "OpenStreetMap" None) readyFrame) !! "tower")
     = Some (getGeoJSON riverGroup)
  /\ size (dataLayers (addGeoJSONLayer "tower" (getGeoJSON riverGroup)
                         (mkLayerOptions "OpenStreetMap" None) readyFrame)) = 2%nat.
Proof.
  destruct (addGeoJSONLayer_registers "tower" brokenGeoJSON
              (mkLayerOptions "OpenStreetMap" None) readyFrame) as [_ Hbad].
  destruct (addGeoJSONLayer_registers "tower" (getGeoJSON riverGroup)
              (mkLayerOptions "OpenStreetMap" None) readyFrame) as [Hok _].
  destruct Hbad as (_ & Hd & _).
  { apply existsb_isMalformed. reflexivity. }
  destruct Hok as (Hlook & _ & _ & _ & Hsize).
  { intros Hin%existsb_isMalformed. discriminate. }
  split; [rewrite Hd; reflexivity|].
  split; [rewrite Hlook; reflexivity|].
  rewrite Hsize; [reflexivity|]. vm_compute. eauto.
Defined.

(** ** Inline data and the calls of the data manager *)

Section InlineProperties.
Context {V : Type} `{Surface V}.

Lemma inlineKey_inj (i j : nat) : inlineKey i = inlineKey j -> i = j.
Proof.
  unfold inlineKey. intros Heq.
  apply (inj (String.append inlineDataLayerKey)) in Heq.
  apply (inj pretty) in Heq. exact Heq.
Qed.

Lemma addInlineGroup_step (m : KMap V) (n : nat) (g : group) :
  snd (addInlineGroup (m, n) g) = S n
  /\ (yieldsLayer g = true ->
      exists l, dataLayers (fst (addInlineGroup (m, n) g))
                = <[inlineKey n := l]> (dataLayers m))
  /\ (yieldsLayer g = false ->
      dataLayers (fst (addInlineGroup (m, n) g)) = dataLayers m).
Proof.
  unfold addInlineGroup, yieldsLayer, addGeoJSONLayer. cbn [fst snd].
  split; [reflexivity|]. split.
  - intros [Hne Hdraw]%andb_true_iff. rewrite Hne.
    apply bool_decide_eq_true in Hdraw as [l Hl]. rewrite Hl.
    eexists. reflexivity.
  - intros Hy. destruct (negb (isEmptyObject (getGeoJSON g))); [|reflexivity].
    destruct (featureLayer (getGeoJSON g)) as [l|]; [|reflexivity].
    rewrite bool_decide_eq_true_2 in Hy by eauto. discriminate.
Qed.

Lemma addInlineGroups_fresh (gs : list group) (m : KMap V) (n : nat) :
  freshFrom n m ->
  let st := fold_left addInlineGroup gs (m, n) in
  snd st = (n + length gs)%nat
  /\ freshFrom (snd st) (fst st)
  /\ size (dataLayers (fst st))
     = (size (dataLayers m) + length (filter (fun g => yieldsLayer g = true) gs))%nat
  /\ (forall k, (forall i, (n <= i < n + length gs)%nat -> k <> inlineKey i) ->
        dataLayers (fst st) !! k = dataLayers m !! k).
Proof.
  revert m n. induction gs as [|g gs IH]; intros m n Hfresh.
  - cbn. repeat split; [lia | exact Hfresh | lia].
  - cbn [fold_left length].
    destruct (addInlineGroup (m, n) g) as [m1 n1] eqn:Hstep.
    destruct (addInlineGroup_step m n g) as (Hn & Hyes & Hno).
    rewrite Hstep in Hn, Hyes, Hno. cbn [fst snd] in Hn, Hyes, Hno. subst n1.
    assert (Hfresh1 : freshFrom (S n) m1
            /\ size (dataLayers m1)
               = (size (dataLayers m) + if yieldsLayer g then 1 else 0)%nat
            /\ (forall k, k <> inlineKey n -> dataLayers m1 !! k = dataLayers m !! k)).
    { unfold freshFrom in *. destruct (yieldsLayer g) eqn:Hy.
      - destruct (Hyes eq_refl) as [l Hl]. rewrite Hl. split; [|split].
        + intros i Hi. rewrite lookup_insert_ne; [apply Hfresh; lia|].
          intros Heq%inlineKey_inj. lia.
        + rewrite map_size_insert_None by (apply Hfresh; lia). lia.
        + intros k Hk. apply lookup_insert_ne. congruence.
      - rewrite (Hno eq_refl). split; [|split; [lia | reflexivity]].
        intros i Hi. apply Hfresh. lia. }
    destruct Hfresh1 as (Hf1 & Hs1 & Hk1).
    destruct (IH m1 (S n) Hf1) as (IHn & IHf & IHs & IHk).
    split; [rewrite IHn; lia|]. split; [exact IHf|]. split.
    + rewrite IHs, Hs1. destruct (yieldsLayer g) eqn:Hy.
      * rewrite filter_cons_True by exact Hy. cbn [length]. lia.
      * rewrite filter_cons_False by congruence. lia.
    + intros k Hk. rewrite IHk, Hk1; [reflexivity| |].
      * apply Hk. lia.
      * intros i Hi. apply Hk. lia.
Qed.

(** X11.  Inline layers never collide.  On a map where no inline layer
    is registered under a number from the counter on, [addDataLayer] moves
    the counter on by one for every group it is given, registers one more
    layer for every group that yields one, touches no entry but those it
    numbers, and leaves the map in the same condition for the next load. *)
Theorem inline_layers_never_collide (gs : list group) (m : KMap V) (n : nat) :
  freshFrom n m ->
  let st := snd (addDataLayer (Resolved gs) (m, n)) in
  snd st = (n + length gs)%nat
  /\ freshFrom (snd st) (fst st)
  /\ size (dataLayers (fst st))
     = (size (dataLayers m) + length (filter (fun g => yieldsLayer g = true) gs))%nat
  /\ (forall k, (forall i, (n <= i < n + length gs)%nat -> k <> inlineKey i) ->
        dataLayers (fst st) !! k = dataLayers m !! k)
  /\ (forall i j, inlineKey i = inlineKey j -> i = j).
Proof.
  intros Hfresh st. subst st. unfold addDataLayer. cbn [fst snd].
  destruct (addInlineGroups_fresh gs (emit LoadInline m) n) as (Hn & Hf & Hs & Hk).
  { exact Hfresh. }
  split; [exact Hn|]. split; [exact Hf|]. split; [exact Hs|]. split; [exact Hk|].
  apply inlineKey_inj.
Qed.

Lemma addGroup_fetches (m : KMap V) (g : group) :
  filter (fun e => isFetch e = true) (log (addGroup m g))
  = filter (fun e => isFetch e = true) (log m).
Proof.
  unfold addGroup, addGeoJSONLayer.
  destruct (negb (isEmptyObject (getGeoJSON g)));
    [destruct (featureLayer (getGeoJSON g))|];
    cbn [log set_dataLayers set_layers];
    rewrite filter_log_emit; cbn [isFetch]; apply app_nil_r.
Qed.

Lemma addGroups_fetches (gs : list group) (m : KMap V) :
  filter (fun e => isFetch e = true) (log (fold_left addGroup gs m))
  = filter (fun e => isFetch e = true) (log m).
Proof.
  revert m. induction gs as [|g gs IH]; intros m; [reflexivity|].
  cbn [fold_left]. rewrite IH. apply addGroup_fetches.
Qed.

Lemma addInlineGroups_fetches (gs : list group) (st : KMap V * nat) :
  filter (fun e => isFetch e = true) (log (fst (fold_left addInlineGroup gs st)))
  = filter (fun e => isFetch e = true) (log (fst st)).
Proof.
  revert st. induction gs as [|g gs IH]; intros [m n]; [reflexivity|].
  cbn [fold_left]. rewrite IH. unfold addInlineGroup, addGeoJSONLayer. cbn [fst].
  destruct (negb (isEmptyObject (getGeoJSON g)));
    [destruct (featureLayer (getGeoJSON g))|];
    cbn [log set_dataLayers set_layers];
    rewrite filter_log_emit; cbn [isFetch]; apply app_nil_r.
Qed.

(** X12.  The data manager is called once for a whole batch and never
    for an empty one: [addDataGroups] makes exactly one call, with all the
    groups, when it is given at least one group, and none when the list is
    absent or empty; [addDataLayer] makes one call.  Neither makes a call
    per group, whatever comes back. *)
Theorem one_call_per_batch (dataGroups : option (list string))
    (outcome : settled (list group)) (m : KMap V) (n : nat) :
  filter (fun e => isFetch e = true) (log (snd (addDataGroups dataGroups outcome m)))
  = (filter (fun e => isFetch e = true) (log m)
     ++ match dataGroups with
        | Some (g :: gs) => [LoadGroups (g :: gs)]
        | _ => []
        end)%list
  /\ (dataGroups = None \/ dataGroups = Some [] ->
      addDataGroups dataGroups outcome m = (Resolved tt, m))
  /\ filter (fun e => isFetch e = true)
       (log (fst (snd (addDataLayer outcome (m, n)))))
     = (filter (fun e => isFetch e = true) (log m) ++ [LoadInline])%list.
Proof.
  split; [|split].
  - destruct dataGroups as [[|g gs]|]; cbn [addDataGroups snd];
      rewrite ?app_nil_r; try reflexivity.
    destruct outcome as [groups|]; cbn [snd]; rewrite ?addGroups_fetches;
      rewrite filter_log_emit; reflexivity.
  - intros [-> | ->]; reflexivity.
  - unfold addDataLayer. cbn [fst snd].
    destruct outcome as [groups|]; cbn [fst snd];
      rewrite ?addInlineGroups_fetches; cbn [fst];
      rewrite filter_log_emit; reflexivity.
Qed.

End InlineProperties.

Lemma inline_layers_never_collide_witness :
  snd (snd (addDataLayer (Resolved [towerGroup; missingGroup; riverGroup]) (readyFrame, 0%nat)))
    = 3%nat
  /\ size (dataLayers (fst (snd (addDataLayer (Resolved [towerGroup; missingGroup; riverGroup])
                                   (readyFrame, 0%nat))))) = 4%nat.
Proof.
  destruct (inline_layers_never_collide [towerGroup; missingGroup; riverGroup] readyFrame 0)
    as (Hn & _ & Hs & _).
  - intros i _. vm_compute. reflexivity.
  - split; [exact Hn|]. rewrite Hs. reflexivity.
Defined.

(** ** Readiness that never comes, link maps, and the child *)

Section OpeningProperties.
Context {V : Type} `{Surface V}.

Lemma toggleStaticState_progress (w : Z) (m : KMap V) :
  progress (toggleStaticState w m) = progress m.
Proof.
  unfold toggleStaticState. case_decide; [reflexivity|].
  destruct ((w <=? 480)%Z || (getSizeX (view m) + 200 >? w)%Z); reflexivity.
Qed.

Lemma newMap_progress (w : Z) (o : options V) :
  progress (newMap w o) = (false, None, [], false).
Proof.
  unfold newMap, _invalidateInteractive.
  destruct (negb (o_fullscreen o) && negb (o_alwaysInteractive o)); [|reflexivity].
  rewrite toggleStaticState_progress. reflexivity.
Qed.

Lemma addGeoJSONLayer_progress (groupId : string) (g : geojson) (o : layerOptions)
    (m : KMap V) :
  progress (addGeoJSONLayer groupId g o m) = progress m.
Proof. unfold addGeoJSONLayer. destruct (featureLayer g); reflexivity. Qed.

Lemma addGroups_progress (gs : list group) (m : KMap V) :
  progress (fold_left addGroup gs m) = progress m.
Proof.
  revert m. induction gs as [|g gs IH]; intros m; [reflexivity|].
  cbn [fold_left]. rewrite IH. unfold addGroup.
  destruct (negb (isEmptyObject (getGeoJSON g))); [|reflexivity].
  apply addGeoJSONLayer_progress.
Qed.

Lemma addInlineGroups_progress (gs : list group) (st : KMap V * nat) :
  progress (fst (fold_left addInlineGroup gs st)) = progress (fst st).
Proof.
  revert st. induction gs as [|g gs IH]; intros [m n]; [reflexivity|].
  cbn [fold_left]. rewrite IH. unfold addInlineGroup. cbn [fst].
  destruct (negb (isEmptyObject (getGeoJSON g))); [|reflexivity].
  apply addGeoJSONLayer_progress.
Qed.

Lemma openFullScreen_waits (w : Z) (requests : list (option positionArg))
    (m : KMap V) :
  _kartographer_ready m = false ->
  fold_left (fun m r => openFullScreen w r m) requests m
  = set_listeners (listeners m ++ (OpenFullScreen <$> requests)) m.
Proof.
  revert m. induction requests as [|r requests IH]; intros m Hr.
  - cbn. rewrite app_nil_r. destruct m; reflexivity.
  - cbn [fold_left fmap list_fmap].
    assert (Hstep : openFullScreen w r m
                    = set_listeners (listeners m ++ [OpenFullScreen r]) m).
    { unfold openFullScreen, doWhenReady. rewrite Hr. reflexivity. }
    rewrite Hstep, IH by (destruct m; exact Hr).
    destruct m; cbn. rewrite <- app_assoc. reflexivity.
Qed.

(** X13.  When the data groups load but the load of the inline data is
    rejected, nothing calls [ready]: the map stays as it was built, not
    ready, without an initial position.  However many times
    [openFullScreen] is called on it afterwards, every call joins the
    callbacks that wait, in the order of the calls, and nothing else
    happens: the map is still not ready, has no child and has logged
    nothing more. *)
Theorem rejected_inline_data_never_ready (server : string) (w : Z) (o : options V)
    (loadGroups : settled (list group)) (n : nat) (d : geojson) :
  server <> "" ->
  o_parentMap o = None ->
  o_data o = Some d ->
  (exists gs, loadGroups = Resolved gs) \/ o_dataGroups o = None \/ o_dataGroups o = Some [] ->
  exists m n',
    initialize (Some server) w o loadGroups Rejected n = Some (m, n')
    /\ _kartographer_ready m = false
    /\ _initialPosition m = None
    /\ LoadInline ∈ log m
    /\ listeners m = []
    /\ (forall requests : list (option positionArg),
          let later := fold_left (fun m r => openFullScreen w r m) requests m in
          later = set_listeners (OpenFullScreen <$> requests) m
          /\ listeners later = OpenFullScreen <$> requests
          /\ _kartographer_ready later = false
          /\ fullScreenMap later = fullScreenMap m
          /\ log later = log m).
Proof.
  intros Hserver Hparent Hdata Hgroups.
  assert (Hinit : initialize (Some server) w o loadGroups Rejected n
                  = Some (initialize_async w o loadGroups Rejected (newMap w o, n))).
  { unfold initialize, initialize_sync. rewrite Hparent.
    destruct server; [congruence | reflexivity]. }
  rewrite Hinit. unfold initialize_async.
  assert (Hres : exists m1, addDataGroups (o_dataGroups o) loadGroups (newMap w o)
                            = (Resolved tt, m1)
                            /\ progress m1 = (false, None, [], false)).
  { unfold addDataGroups.
    destruct (o_dataGroups o) as [[|g gs]|] eqn:Hdg.
    - eexists. split; [reflexivity | apply newMap_progress].
    - destruct Hgroups as [[groups ->]|[Hn|Hn]]; try discriminate.
      eexists. split; [reflexivity|].
      rewrite addGroups_progress. apply (newMap_progress w o).
    - eexists. split; [reflexivity | apply newMap_progress]. }
  destruct Hres as (m1 & -> & Hp). rewrite Hdata.
  unfold addDataLayer. cbn [fst snd].
  exists (emit LoadInline m1), n. split; [reflexivity|].
  injection Hp as Hr Hi Hl Hu.
  split; [exact Hr|]. split; [exact Hi|]. split.
  - cbn [emit set_log log]. apply elem_of_app. right.
    apply list_elem_of_singleton. reflexivity.
  - split; [exact Hl|]. intros requests. cbv zeta.
    rewrite openFullScreen_waits by exact Hr.
    cbn [emit set_log listeners]. rewrite Hl. cbn [app].
    split; [reflexivity|]. split; [reflexivity|].
    split; [exact Hr|]. split; reflexivity.
Qed.

(** X14.  A link map is its own full screen target: [openFullScreen]
    never constructs a child for it.  Ready, it calls [setView] on the map
    itself, without persisting, and asks for the dialog; without a position
    the current one is taken, so the view is placed at the wrapped center
    of the view at its zoom.  In the middle of a close driven by the router
    the call only clears the mark. *)
Theorem link_map_opens_itself (w : Z) (requested : option positionArg) (this : KMap V) :
  link this = true -> _kartographer_ready this = true ->
  fullScreenMap (openFullScreen w requested this) = fullScreenMap this
  /\ filter (fun e => isConstruction e = true) (log (openFullScreen w requested this))
     = filter (fun e => isConstruction e = true) (log this)
  /\ _initialPosition (openFullScreen w requested this) = _initialPosition this
  /\ (_updatingHash this = false ->
      openFullScreen w requested this
      = emit RenderDialog
          (setView (pcenter (positionOrCurrent requested this))
             (pzoom (positionOrCurrent requested this)) false this)
      /\ (requested = None ->
          view (openFullScreen w requested this)
          = L_setView (wrap (getCenter (view this))) (getZoom (view this)) (view this)))
  /\ (_updatingHash this = true ->
      openFullScreen w requested this = set_updatingHash false this).
Proof.
  intros Hlink Hready.
  assert (Hopen : openFullScreen w requested this
                  = if _updatingHash this then set_updatingHash false this
                    else emit RenderDialog
                           (setView (pcenter (positionOrCurrent requested this))
                              (pzoom (positionOrCurrent requested this)) false this)).
  { unfold openFullScreen, doWhenReady. rewrite Hready.
    unfold run, openFullScreen_ready. rewrite Hlink. reflexivity. }
  rewrite Hopen.
  destruct (setView_fields this (pcenter (positionOrCurrent requested this))
              (pzoom (positionOrCurrent requested this)) false)
    as (_ & _ & Hlog & _ & _ & Hchild & _).
  destruct (_updatingHash this) eqn:Hu.
  - repeat split; try reflexivity; discriminate.
  - split; [exact Hchild|]. split.
    { rewrite filter_log_emit. cbn [isConstruction]. rewrite Hlog. apply app_nil_r. }
    split.
    { cbn [emit set_log _initialPosition].
      apply (setView_frame this _ _ false). auto. }
    split; [|discriminate].
    intros _. split; [reflexivity|].
    intros ->. cbn [positionOrCurrent getMapPosition pcenter pzoom emit set_log view].
    unfold setView. cbn [resolveCenter resolveZoom view set_view]. reflexivity.
Qed.

Lemma openFullScreen_first (w : Z) (requested : option positionArg)
    (this : KMap V) (p : position) :
  link this = false -> _kartographer_ready this = true ->
  fullScreenMap this = None -> _initialPosition this = Some p ->
  openFullScreen w requested this
  = emit RenderDialog
      (set_fullScreenMap
         (Some (initView (centerOf (center p)) (zoomOf (zoom p)) false
                  (initialize_sync w (childOptions this (positionOrCurrent requested this)))))
         (emit NewKartographerMap this)).
Proof.
  intros Hlink Hready Hnone Hp.
  unfold openFullScreen, doWhenReady. rewrite Hready.
  unfold run, openFullScreen_ready. rewrite Hlink, Hnone.
  cbn [_initialPosition set_fullScreenMap emit set_log]. rewrite Hp.
  destruct p as [c z]. reflexivity.
Qed.

(** X15.  The child that [openFullScreen] builds is a full screen map
    with the route and the fallback zoom of its parent, without a mode and
    without a timer; its container is not visible yet, so its own placement
    persists nothing, and its hash starts with the route of the parent. *)
Theorem child_inherits_route (w : Z) (requested : option positionArg)
    (this : KMap V) (p : position) :
  link this = false -> _kartographer_ready this = true ->
  fullScreenMap this = None -> _initialPosition this = Some p ->
  exists child : KMap V,
    fullScreenMap (openFullScreen w requested this) = Some child
    /\ control child
       = (true, false, false, fullScreenRoute this, fallbackZoom this, None, false)
    /\ visible child = false
    /\ data child = None
    /\ (getHash child = fullScreenRoute this
        \/ getHash child = fullScreenRoute this ++ positionSuffix child).
Proof.
  intros Hlink Hready Hnone Hp.
  rewrite (openFullScreen_first w requested this p Hlink Hready Hnone Hp).
  eexists. split; [reflexivity|].
  set (o := childOptions this (positionOrCurrent requested this)).
  assert (Hc : control (initView (centerOf (center p)) (zoomOf (zoom p)) false
                          (initialize_sync w o))
               = (true, false, false, fullScreenRoute this, fallbackZoom this, None, false)).
  { rewrite initView_control. unfold initialize_sync, ready_core. cbn [o_parentMap o childOptions].
    change (control (set_kartographer_ready true ?x)) with (control x).
    rewrite initView_control, copyLayers_control. reflexivity. }
  split; [exact Hc|].
  assert (Hvis : visible (initialize_sync w o) = false
                 /\ data (initialize_sync w o) = None).
  { unfold initialize_sync, ready_core. cbn [o_parentMap o childOptions].
    cbn [visible data set_kartographer_ready].
    set (m1 := copyLayers this _).
    assert (Hm1 : visible m1 = false /\ data m1 = None).
    { unfold m1, copyLayers.
      apply (map_fold_weak_ind (fun (r : KMap V) (_ : gmap string dataLayer) =>
        visible r = false /\ data r = None)); [split; reflexivity|].
      intros groupId l sub r _ Hr. unfold addGeoJSONLayer.
      destruct (featureLayer (layer_geoJSON l)); exact Hr. }
    destruct Hm1 as [Hv Hd]. split.
    - match goal with |- visible (initView ?c ?z true ?x) = false =>
        destruct (initView_fullscreen x c z true) as [_ Hv'] end.
      rewrite Hv'. exact Hv.
    - unfold initView.
      match goal with |- data (setView ?c ?z true ?x) = None =>
        destruct (setView_frame x c z true) as [_ Hd'] end.
      { right. right. exact Hv. }
      rewrite Hd'. exact Hd. }
  split; [apply Hvis|]. split; [apply Hvis|].
  pose proof (f_equal (fun t => snd (fst (fst (fst t)))) Hc) as Hroute.
  cbn [control fst snd] in Hroute.
  rewrite <- Hroute. apply getHash_cases.
Qed.

End OpeningProperties.

Lemma one_call_per_batch_witness :
  addDataGroups (Some []) Rejected freshFrame = (Resolved tt, freshFrame)
  /\ filter (fun e => isFetch e = true)
       (log (snd (addDataGroups (Some ["tower"; "river"])
                    (Resolved [towerGroup; riverGroup]) freshFrame)))
     = [LoadGroups ["tower"; "river"]].
Proof.
  destruct (one_call_per_batch (Some []) Rejected freshFrame 0) as (_ & Hempty & _).
  destruct (one_call_per_batch (Some ["tower"; "river"])
              (Resolved [towerGroup; riverGroup]) freshFrame 0) as (Hone & _).
  split; [apply Hempty; right; reflexivity | exact Hone].
Defined.

Lemma rejected_inline_data_never_ready_witness :
  exists m n',
    initialize (Some "https://maps.wikimedia.org") 1280 inlineOptions
      (Resolved [towerGroup]) Rejected 0 = Some (m, n')
    /\ _kartographer_ready m = false
    /\ size (dataLayers m) = 1%nat
    /\ listeners (openFullScreen 1280 (Some (mkPositionArg CUndefined None))
                    (openFullScreen 1280 None m))
       = [OpenFullScreen None; OpenFullScreen (Some (mkPositionArg CUndefined None))].
Proof.
  destruct (rejected_inline_data_never_ready "https://maps.wikimedia.org" 1280
              inlineOptions (Resolved [towerGroup]) 0 [Feature (Marker eiffel)])
    as (m & n' & Hinit & Hready & _ & _ & _ & Hlater).
  - discriminate.
  - reflexivity.
  - reflexivity.
  - left. eexists. reflexivity.
  - exists m, n'. split; [exact Hinit|]. split; [exact Hready|]. split.
    + vm_compute in Hinit. injection Hinit as <- _. reflexivity.
    + destruct (Hlater [None; Some (mkPositionArg CUndefined None)])
        as (_ & Hlisteners & _).
      exact Hlisteners.
Defined.

Lemma link_map_opens_itself_witness :
  fullScreenMap (openFullScreen 1280 None linkMap) = None
  /\ view (openFullScreen 1280 None linkMap) = mkSampleView eiffel 12 1280
  /\ log (openFullScreen 1280 None linkMap) = [RenderDialog].
Proof.
  destruct (link_map_opens_itself 1280 None linkMap eq_refl eq_refl)
    as (Hchild & _ & _ & Hopen & _).
  destruct (Hopen eq_refl) as [Heq Hview].
  split; [exact Hchild|]. split; [exact (Hview eq_refl)|].
  rewrite Heq. reflexivity.
Defined.

Lemma child_inherits_route_witness :
  exists child : KMap sampleView,
    fullScreenMap (openFullScreen 1280 None readyFrame) = Some child
    /\ fullScreenRoute child = "/map/0"
    /\ fullscreen child = true
    /\ _static child = None.
Proof.
  destruct (child_inherits_route 1280 None readyFrame
              (mkPosition (Some eiffel) (Some 12%Z)) eq_refl eq_refl eq_refl eq_refl)
    as (child & Hchild & Hcontrol & _).
  exists child. split; [exact Hchild|].
  injection Hcontrol as Hf _ _ Hr _ Hs _.
  split; [exact Hr|]. split; [exact Hf | exact Hs].
Defined.

(** ** The registry of frames and the route callback *)

Lemma digitValue_pretty_N_char (d : N) :
  (d < 10)%N -> digitValue (pretty_N_char d) = Some d.
Proof.
  intros Hd.
  assert (Hcases : (d = 0 \/ d = 1 \/ d = 2 \/ d = 3 \/ d = 4 \/ d = 5 \/ d = 6
                    \/ d = 7 \/ d = 8 \/ d = 9)%N) by lia.
  repeat (destruct Hcases as [->|Hcases]; [reflexivity|]). subst d. reflexivity.
Qed.

Lemma parseDigits_pretty_go (x : N) (s : string) :
  exists k : N, forall acc : N,
    parseDigits acc (pretty_N_go x s) = parseDigits (acc * 10 ^ k + x) s.
Proof.
  revert s. induction (N.lt_wf_0 x) as [x _ IH]; intros s.
  destruct (decide (x = 0)%N) as [->|Hx].
  - exists 0%N. intros acc. rewrite pretty_N_go_0. f_equal. cbn. lia.
  - rewrite pretty_N_go_step by lia.
    destruct (IH (x `div` 10)%N ltac:(apply N.div_lt; lia)
                (String (pretty_N_char (x `mod` 10)) s)) as [k Hk].
    exists (k + 1)%N. intros acc. rewrite Hk. cbn [parseDigits].
    rewrite digitValue_pretty_N_char by (apply N.mod_lt; lia).
    f_equal. rewrite N.pow_add_r, N.pow_1_r.
    pose proof (N.div_mod x 10 ltac:(lia)) as Hdm. nia.
Qed.

Lemma parseDigits_pretty (n : N) : parseDigits 0 (pretty n) = Some n.
Proof.
  unfold pretty, pretty_N. case_decide as Hn; [subst; reflexivity|].
  destruct (parseDigits_pretty_go n "") as [k Hk]. rewrite Hk. reflexivity.
Qed.

Lemma pretty_N_nonempty (n : N) : pretty n <> "".
Proof.
  intros Hempty. pose proof (parseDigits_pretty n) as Hp.
  rewrite Hempty in Hp. cbn in Hp. injection Hp as <-.
  discriminate Hempty.
Qed.

Lemma arrayIndex_pretty (i : nat) : arrayIndex (pretty i) = Some i.
Proof.
  unfold arrayIndex. change (pretty i) with (pretty (N.of_nat i)).
  destruct (pretty (N.of_nat i)) eqn:Hp; [apply pretty_N_nonempty in Hp; contradiction|].
  rewrite <- Hp, parseDigits_pretty, String.eqb_refl, Nat2N.id. reflexivity.
Qed.

Lemma arrayIndex_canonical (key : string) (i : nat) :
  arrayIndex key = Some i -> key = pretty i.
Proof.
  unfold arrayIndex. destruct key as [|c key]; [discriminate|].
  destruct (parseDigits 0 (String c key)) as [n|]; [|discriminate].
  destruct (String.eqb (pretty n) (String c key)) eqn:Heq; [|discriminate].
  apply String.eqb_eq in Heq. intros [= <-]. rewrite <- Heq.
  change (pretty (N.to_nat n)) with (pretty (N.of_nat (N.to_nat n))).
  rewrite N2Nat.id. reflexivity.
Qed.

Lemma pretty_N_go_leading (x : N) (s : string) :
  (0 < x)%N ->
  exists c r, pretty_N_go x s = String c r /\ c <> "0"%char.
Proof.
  revert s. induction (N.lt_wf_0 x) as [x _ IH]; intros s Hx.
  rewrite pretty_N_go_step by exact Hx.
  destruct (decide (x < 10)%N) as [Hsmall|Hbig].
  - rewrite N.div_small, pretty_N_go_0 by exact Hsmall.
    rewrite N.mod_small by exact Hsmall.
    eexists _, _. split; [reflexivity|].
    assert (Hcases : (x = 1 \/ x = 2 \/ x = 3 \/ x = 4 \/ x = 5 \/ x = 6
                      \/ x = 7 \/ x = 8 \/ x = 9)%N) by lia.
    repeat (destruct Hcases as [->|Hcases]; [discriminate|]). subst x. discriminate.
  - apply IH; [apply N.div_lt; lia|].
    apply N.div_str_pos. lia.
Qed.

Lemma arrayIndex_leading_zero (rest : string) :
  rest <> "" -> arrayIndex (String "0" rest) = None.
Proof.
  intros Hrest. destruct (arrayIndex (String "0" rest)) as [i|] eqn:Hidx; [|reflexivity].
  apply arrayIndex_canonical in Hidx. exfalso.
  change (pretty i) with (pretty (N.of_nat i)) in Hidx.
  unfold pretty, pretty_N in Hidx. case_decide as Hi.
  - injection Hidx as ->. contradiction.
  - destruct (pretty_N_go_leading (N.of_nat i) "") as (c & r & Hgo & Hc); [lia|].
    rewrite Hgo in Hidx. injection Hidx as <- _. contradiction.
Qed.

Section RouteProperties.
Context {V : Type} `{Surface V}.

(** X16.  The route callback opens the map that is registered under the
    number the route names, and only that map: every other entry of the
    registry stays as it is.  A number beyond the registry, and a numeral
    with leading zeros, open nothing: the registry is unchanged and the
    route is reset to the empty one.  The position of the route is used
    only when zoom, latitude and longitude are all there; with any of them
    missing the map opens at its remembered initial position. *)
Theorem route_opens_registered_map (w : Z) (zoom : option Z)
    (latitude longitude : option Q) (maps : list (KMap V)) :
  (forall (i : nat) (map : KMap V),
     maps !! i = Some map ->
     onRoute w (pretty i) zoom latitude longitude maps
       = (<[i := openFullScreen w (routePosition zoom latitude longitude map) map]> maps,
          None)
     /\ length (fst (onRoute w (pretty i) zoom latitude longitude maps)) = length maps
     /\ (forall j, j <> i ->
           fst (onRoute w (pretty i) zoom latitude longitude maps) !! j = maps !! j))
  /\ (forall i : nat,
        (length maps <= i)%nat ->
        onRoute w (pretty i) zoom latitude longitude maps = (maps, Some ""))
  /\ (forall rest : string,
        rest <> "" ->
        onRoute w (String "0" rest) zoom latitude longitude maps = (maps, Some ""))
  /\ (forall map : KMap V,
        zoom = None \/ latitude = None \/ longitude = None ->
        routePosition zoom latitude longitude map
        = (fun '(mkPosition c z) => mkPositionArg (centerOf c) (zoomOf z))
            <$> _initialPosition map).
Proof.
  split; [|split; [|split]].
  - intros i map Hmap.
    assert (Hroute : onRoute w (pretty i) zoom latitude longitude maps
              = (<[i := openFullScreen w (routePosition zoom latitude longitude map) map]> maps,
                 None)).
    { unfold onRoute. rewrite arrayIndex_pretty, Hmap. reflexivity. }
    rewrite Hroute. cbn [fst]. split; [reflexivity|].
    split; [apply length_insert|].
    intros j Hj. apply list_lookup_insert_ne. congruence.
  - intros i Hi. unfold onRoute. rewrite arrayIndex_pretty.
    rewrite (lookup_ge_None_2 maps i Hi). reflexivity.
  - intros rest Hrest. unfold onRoute.
    rewrite (arrayIndex_leading_zero rest Hrest). reflexivity.
  - intros map Hmissing. unfold routePosition, getInitialMapPosition.
    destruct (_initialPosition map) as [[c0 z0]|];
      destruct Hmissing as [Hm | [Hm | Hm]]; subst;
      repeat match goal with
             | |- context [match ?x with Some _ => _ | None => _ end] =>
                 is_var x; destruct x
             end; reflexivity.
Qed.

End RouteProperties.

Lemma route_opens_registered_map_witness :
  snd (onRoute 1280 "1" (Some 5%Z) None None pageMaps) = None
  /\ snd (onRoute 1280 "2" None None None pageMaps) = Some ""
  /\ snd (onRoute 1280 "01" None None None pageMaps) = Some ""
  /\ fst (onRoute 1280 "1" (Some 5%Z) None None pageMaps) !! 0%nat = pageMaps !! 0%nat.
Proof.
  destruct (route_opens_registered_map 1280 (Some 5%Z) None None pageMaps)
    as (Hopen & _).
  destruct (route_opens_registered_map 1280 None None None pageMaps)
    as (_ & Hbeyond & Hzero & _).
  destruct (pageMaps !! 1%nat) as [m|] eqn:Hm; [|vm_compute in Hm; discriminate].
  destruct (Hopen 1%nat m Hm) as (Heq & _ & Hother).
  split; [change "1" with (pretty 1%nat); rewrite Heq; reflexivity|].
  split.
  { change "2" with (pretty 2%nat). rewrite (Hbeyond 2%nat); [reflexivity|].
    vm_compute. lia. }
  split; [rewrite (Hzero "1"); [reflexivity | discriminate]|].
  apply (Hother 0%nat). discriminate.
Defined.

Section RegistryProperties.
Context {V : Type} `{Surface V}.

Lemma run_control (w : Z) (m : KMap V) (cb : callback) :
  control (run w m cb) = control m.
Proof.
  destruct cb as [requested]. unfold run, openFullScreen_ready.
  destruct (link m) eqn:Hlink.
  - destruct (_updatingHash m); [reflexivity|].
    change (control (emit RenderDialog ?x)) with (control x).
    apply setView_control.
  - destruct (fullScreenMap m) as [child|].
    + destruct (_updatingHash child); reflexivity.
    + cbn [_initialPosition set_fullScreenMap emit set_log].
      destruct (_initialPosition m) as [[c z]|]; reflexivity.
Qed.

Lemma fold_run_control (w : Z) (l : list callback) (m : KMap V) :
  control (fold_left (run w) l m) = control m.
Proof.
  revert m. induction l as [|cb l IH]; intros m; [reflexivity|].
  cbn [fold_left]. rewrite IH. apply run_control.
Qed.

Lemma openFullScreen_control (w : Z) (requested : option positionArg) (m : KMap V) :
  control (openFullScreen w requested m) = control m.
Proof.
  unfold openFullScreen, doWhenReady.
  destruct (_kartographer_ready m); [apply run_control | reflexivity].
Qed.

Lemma ready_control (w : Z) (o : options V) (m : KMap V) :
  control (ready w o m) = control m.
Proof.
  unfold ready, fire_kartographerisready. rewrite fold_run_control.
  change (control (set_kartographer_ready true ?x)) with (control x).
  apply initView_control.
Qed.

Lemma addGroups_control (gs : list group) (m : KMap V) :
  control (fold_left addGroup gs m) = control m.
Proof.
  revert m. induction gs as [|g gs IH]; intros m; [reflexivity|].
  cbn [fold_left]. rewrite IH. unfold addGroup.
  destruct (negb (isEmptyObject (getGeoJSON g))); [|reflexivity].
  apply addGeoJSONLayer_control.
Qed.

Lemma addInlineGroups_control (gs : list group) (st : KMap V * nat) :
  control (fst (fold_left addInlineGroup gs st)) = control (fst st).
Proof.
  revert st. induction gs as [|g gs IH]; intros [m n]; [reflexivity|].
  cbn [fold_left]. rewrite IH. unfold addInlineGroup. cbn [fst].
  destruct (negb (isEmptyObject (getGeoJSON g))); [|reflexivity].
  apply addGeoJSONLayer_control.
Qed.

Lemma initialize_async_control (w : Z) (o : options V)
    (loadGroups load : settled (list group)) (st : KMap V * nat) :
  control (fst (initialize_async w o loadGroups load st)) = control (fst st).
Proof.
  destruct st as [m n]. unfold initialize_async, addDataGroups, addDataLayer.
  cbn [fst snd].
  assert (Hg : forall gs, control (fold_left addGroup gs m) = control m)
    by (intros gs; apply addGroups_control).
  destruct (o_dataGroups o) as [[|g gs]|];
    try destruct loadGroups as [groups|];
    try destruct (o_data o) as [d|];
    try destruct load as [inline|]; cbn [fst snd];
    repeat match goal with
           | |- context [fold_left addInlineGroup ?l ?s] =>
               let Hc := fresh "Hc" in
               pose proof (addInlineGroups_control l s) as Hc;
               destruct (fold_left addInlineGroup l s) as [? ?]; cbn [fst] in Hc |- *
           end;
    rewrite ?ready_control;
    try change (control (emit LogError ?x)) with (control x);
    rewrite ?ready_control;
    try match goal with Hc : control _ = _ |- _ => rewrite Hc end;
    cbn [fst];
    try change (control (emit LoadInline ?x)) with (control x);
    rewrite ?addGroups_control; reflexivity.
Qed.

Lemma newMap_route (w : Z) (o : options V) :
  fullScreenRoute (newMap w o) = o_fullScreenRoute o.
Proof.
  unfold newMap, _invalidateInteractive, toggleStaticState.
  destruct (negb (o_fullscreen o) && negb (o_alwaysInteractive o)); [|reflexivity].
  case_decide; [reflexivity|].
  match goal with |- context [if ?b then _ else _] => destruct b end; reflexivity.
Qed.

Lemma routesMatch_insert (maps : list (KMap V)) (i : nat) (old new : KMap V) :
  routesMatch maps -> maps !! i = Some old ->
  fullScreenRoute new = fullScreenRoute old ->
  routesMatch (<[i := new]> maps).
Proof.
  intros Hmatch Hold Hroute j m Hj.
  destruct (decide (i = j)) as [<-|Hne].
  - rewrite list_lookup_insert_eq in Hj by (eapply lookup_lt_Some; eassumption).
    injection Hj as <-. rewrite Hroute. apply Hmatch, Hold.
  - rewrite list_lookup_insert_ne in Hj by exact Hne. apply Hmatch, Hj.
Qed.

Lemma control_route (a b : KMap V) :
  control a = control b -> fullScreenRoute a = fullScreenRoute b.
Proof.
  intros Hc. apply (f_equal (fun t => snd (fst (fst (fst t))))) in Hc. exact Hc.
Qed.

(** X17.  The registry keeps every map under the number of its route.
    [initMapBox] appends the new map under the next number and gives it the
    route of that number, leaving the maps before it alone; the new map is
    not ready yet and has no child.  Routes and the loading of data keep the
    registry that way, so the text after [/map/] in the route of a
    registered map always leads the route callback back to that very
    map. *)
Theorem registry_keeps_routes (fz w : Z) (data : mapData)
    (container : frameContainer V) (maps : list (KMap V)) :
  routesMatch maps ->
  routesMatch (fst (initMapBox fz w data container maps))
  /\ fst (initMapBox fz w data container maps) !! length maps
     = Some (snd (initMapBox fz w data container maps))
  /\ (forall i, (i < length maps)%nat ->
        fst (initMapBox fz w data container maps) !! i = maps !! i)
  /\ _kartographer_ready (snd (initMapBox fz w data container maps)) = false
  /\ fullScreenMap (snd (initMapBox fz w data container maps)) = None
  /\ (forall key zoom latitude longitude,
        routesMatch (fst (onRoute w key zoom latitude longitude maps)))
  /\ (forall index d c outcome, routesMatch (frameLoaded fz w index d c outcome maps))
  /\ (forall (i : nat) (m : KMap V) zoom latitude longitude,
        maps !! i = Some m ->
        exists key,
          fullScreenRoute m = "/map/" ++ key
          /\ onRoute w key zoom latitude longitude maps
             = (<[i := openFullScreen w (routePosition zoom latitude longitude m) m]> maps,
                None)).
Proof.
  intros Hmatch. unfold initMapBox. cbn [fst snd].
  set (o := mapBoxOptions fz (length maps) data container).
  assert (Hnew : initialize_sync w o = newMap w o) by reflexivity.
  split; [|split; [|split; [|split; [|split; [|split; [|split]]]]]].
  - intros i m Hi. destruct (decide (i < length maps)%nat) as [Hlt|Hge].
    + rewrite lookup_app_l in Hi by exact Hlt. apply Hmatch, Hi.
    + rewrite lookup_app_r in Hi by lia.
      destruct (i - length maps)%nat as [|k] eqn:Hk; [|destruct k; discriminate].
      injection Hi as <-. rewrite Hnew, newMap_route.
      replace i with (length maps) by lia. reflexivity.
  - rewrite lookup_app_r by lia. rewrite Nat.sub_diag. reflexivity.
  - intros i Hi. apply lookup_app_l. exact Hi.
  - rewrite Hnew. pose proof (newMap_progress w o) as Hp.
    injection Hp as Hr _ _ _. exact Hr.
  - rewrite Hnew. apply newMap_fields.
  - intros key zoom latitude longitude. unfold onRoute.
    destruct (arrayIndex key) as [index|]; [|exact Hmatch].
    destruct (maps !! index) as [m|] eqn:Hm; [|exact Hmatch].
    cbn [fst]. apply (routesMatch_insert maps index m _ Hmatch Hm).
    apply control_route, openFullScreen_control.
  - intros index d c outcome. unfold frameLoaded.
    destruct (maps !! index) as [m|] eqn:Hm; [|exact Hmatch].
    apply (routesMatch_insert maps index m _ Hmatch Hm).
    apply control_route.
    apply (initialize_async_control w _ outcome Rejected (m, 0%nat)).
  - intros i m zoom latitude longitude Hm. exists (pretty i).
    split; [apply Hmatch, Hm|].
    unfold onRoute. rewrite arrayIndex_pretty, Hm. reflexivity.
Qed.

End RegistryProperties.

Lemma registry_keeps_routes_witness :
  fullScreenRoute (snd (initMapBox 13 1280 firstFrameData frameElement [])) = "/map/0"
  /\ _kartographer_ready (snd (initMapBox 13 1280 firstFrameData frameElement [])) = false.
Proof.
  destruct (registry_keeps_routes 13 1280 firstFrameData frameElement [])
    as (Hmatch & Hlast & _ & Hready & _).
  - intros i m Hi. destruct i; discriminate Hi.
  - split; [|exact Hready]. apply (Hmatch 0%nat). exact Hlast.
Defined.

(** ** The style of a link *)

Example matchMarkerColor_examples :
  matchMarkerColor "#abc" = Some "abc"
  /\ matchMarkerColor "A1b2C3" = Some "A1b2C3"
  /\ matchMarkerColor "#ff" = None
  /\ matchMarkerColor "abcg" = None
  /\ matchMarkerColor "red; background: url(x)" = None
  /\ matchMarkerColor (String "f" (String "f" (String "f" (String "010" "")))) = Some "fff".
Proof. repeat split. Qed.

Lemma matchMarkerColor_hex (color digits : string) :
  matchMarkerColor color = Some digits ->
  all_chars isHexDigit digits = true
  /\ (String.length digits = 3%nat \/ String.length digits = 6%nat).
Proof.
  unfold matchMarkerColor.
  match goal with |- context [beforeFinalNewline ?r] =>
    generalize (beforeFinalNewline r) end.
  intros d. destruct (all_chars isHexDigit d) eqn:Hhex; [|discriminate].
  destruct ((String.length d =? 3)%nat || (String.length d =? 6)%nat) eqn:Hlen;
    [|discriminate].
  cbn [andb]. intros [= <-]. split; [exact Hhex|].
  apply orb_true_iff in Hlen as [Hl|Hl]; apply Nat.eqb_eq in Hl; auto.
Qed.

Lemma matchMarkerColor_hash (color : string) :
  match color with String "#" _ => False | _ => True end ->
  matchMarkerColor (String "#" color) = matchMarkerColor color.
Proof.
  intros Hno. unfold matchMarkerColor.
  destruct color as [|c color]; [reflexivity|].
  destruct (Ascii.eqb_spec c "#") as [->|Hc]; [contradiction|].
  destruct c as [[] [] [] [] [] [] [] []]; try reflexivity. contradiction Hc. reflexivity.
Qed.

(** X18.  Whatever the marker color says, the style of a link is either
    empty or [background: #], three or six hexadecimal digits, and [;] :
    nothing else of the color ever reaches the style.  It is empty when
    marker styles are switched off, when there are no marker properties and
    when they have no color; and a color gives the same style with and
    without its leading [#]. *)
Theorem extractMarkerCss_safe (useMarkerStyle : bool)
    (markerProperties : option (gmap string string)) :
  (extractMarkerCss useMarkerStyle markerProperties = ""
   \/ exists digits,
        extractMarkerCss useMarkerStyle markerProperties
          = "background: #" ++ digits ++ ";"
        /\ all_chars isHexDigit digits = true
        /\ (String.length digits = 3%nat \/ String.length digits = 6%nat))
  /\ (useMarkerStyle = false \/ markerProperties = None
      \/ (exists properties, markerProperties = Some properties
                             /\ properties !! "marker-color" = None) ->
      extractMarkerCss useMarkerStyle markerProperties = "")
  /\ (forall (properties : gmap string string) (color : string),
        match color with String "#" _ => False | _ => True end ->
        extractMarkerCss useMarkerStyle
          (Some (<["marker-color" := String "#" color]> properties))
        = extractMarkerCss useMarkerStyle
            (Some (<["marker-color" := color]> properties))).
Proof.
  split; [|split].
  - unfold extractMarkerCss.
    destruct markerProperties as [properties|]; [|auto].
    destruct useMarkerStyle; [|auto].
    destruct (properties !! "marker-color") as [color|]; [|auto].
    destruct (matchMarkerColor color) as [digits|] eqn:Hm; [|auto].
    right. exists digits. split; [reflexivity|].
    apply (matchMarkerColor_hex color digits Hm).
  - unfold extractMarkerCss.
    intros [-> | [-> | (properties & -> & Hnone)]].
    + destruct markerProperties; reflexivity.
    + reflexivity.
    + rewrite Hnone. destruct useMarkerStyle; reflexivity.
  - intros properties color Hno. unfold extractMarkerCss.
    rewrite !lookup_insert_eq, (matchMarkerColor_hash color Hno). reflexivity.
Qed.

Lemma extractMarkerCss_safe_witness :
  extractMarkerCss true (Some {["marker-color" := "#0a3"]}) = "background: #0a3;"
  /\ extractMarkerCss true (Some {["marker-color" := "0a3"]}) = "background: #0a3;"
  /\ extractMarkerCss true (Some {["marker-symbol" := "star"]}) = "".
Proof.
  destruct (extractMarkerCss_safe true (Some {["marker-symbol" := "star"]}))
    as (_ & Hempty & _).
  destruct (extractMarkerCss_safe true None) as (_ & _ & Hhash).
  split; [reflexivity|]. split; [reflexivity|].
  apply Hempty. right. right. eexists. split; reflexivity.
Defined.

(** ** The scale of the tiles *)

Lemma firstBracket_Some (r : Q) (brackets : list Q) (scl : Q) :
  firstBracket r brackets = Some scl ->
  In scl brackets /\ ((r <= scl)%Q \/ (r - scl < oneTenth)%Q).
Proof.
  induction brackets as [|b rest IH]; [discriminate|].
  cbn [firstBracket].
  destruct (Qle_bool r b || negb (Qle_bool oneTenth (r - b))) eqn:Hb.
  - intros [= <-]. split; [left; reflexivity|].
    apply orb_true_iff in Hb as [Hle|Hnear].
    + left. apply Qle_bool_iff, Hle.
    + right. apply Qnot_le_lt. intros Hle. apply Qle_bool_iff in Hle.
      rewrite Hle in Hnear. discriminate.
  - intros Hrest. destruct (IH Hrest) as [Hin Hok]. split; [right; exact Hin | exact Hok].
Qed.

Lemma firstBracket_None (r : Q) (brackets : list Q) :
  firstBracket r brackets = None ->
  Forall (fun scl => (scl < r)%Q /\ (oneTenth <= r - scl)%Q) brackets.
Proof.
  induction brackets as [|b rest IH]; [constructor|].
  cbn [firstBracket].
  destruct (Qle_bool r b || negb (Qle_bool oneTenth (r - b))) eqn:Hb; [discriminate|].
  intros Hrest. constructor; [|apply IH, Hrest].
  apply orb_false_iff in Hb as [Hle Hnear]. split.
  - apply Qnot_le_lt. intros Hrb. apply Qle_bool_iff in Hrb. congruence.
  - apply negb_false_iff in Hnear. apply Qle_bool_iff, Hnear.
Qed.

Lemma last_In (l : list Q) (d : Q) : l <> [] -> In (List.last l d) l.
Proof.
  induction l as [|a l IH]; [congruence|]. intros _.
  destruct l as [|b l]; [left; reflexivity|].
  right. apply IH. discriminate.
Qed.

(** X19.  [bracketDevicePixelRatio] always answers with 1 or one of the
    configured scales, and leaves the configured list with a 1 in front.
    The answer is at least the ratio of the device or less than 0.1 below
    it; only when every scale, 1 included, is 0.1 or more below the ratio is
    it the last scale of the list instead.  A ratio below 1.1, a missing or
    zero ratio and a missing configuration all give 1. *)
Theorem bracketDevicePixelRatio_picks_scale (brackets : list Q) (r : Q) :
  Qeq_bool r 0 = false ->
  let result := fst (bracketDevicePixelRatio (Some brackets) (Some (Fin r))) in
  In result (1%Q :: brackets)
  /\ snd (bracketDevicePixelRatio (Some brackets) (Some (Fin r)))
     = Some (1%Q :: brackets)
  /\ (((r <= result)%Q \/ (r - result < oneTenth)%Q)
      \/ (Forall (fun scl => (scl < r)%Q /\ (oneTenth <= r - scl)%Q) (1%Q :: brackets)
          /\ result = List.last (1%Q :: brackets) 1%Q))
  /\ ((r - 1 < oneTenth)%Q -> result = 1%Q)
  /\ (forall dpr, dpr = None \/ dpr = Some NaN \/ dpr = Some (Fin 0%Q) ->
        fst (bracketDevicePixelRatio (Some brackets) dpr) = 1%Q)
  /\ (forall dpr, bracketDevicePixelRatio None dpr = (1%Q, None)).
Proof.
  intros Hr result. subst result. unfold bracketDevicePixelRatio. rewrite Hr.
  cbn [fst snd].
  split; [|split; [reflexivity|split; [|split; [|split]]]].
  - destruct (firstBracket r (1%Q :: brackets)) as [scl|] eqn:Hf.
    + apply (firstBracket_Some r _ scl Hf).
    + apply last_In. discriminate.
  - destruct (firstBracket r (1%Q :: brackets)) as [scl|] eqn:Hf.
    + left. apply (firstBracket_Some r _ scl Hf).
    + right. split; [apply firstBracket_None, Hf | reflexivity].
  - intros Hnear. cbn [firstBracket].
    assert (Hb : negb (Qle_bool oneTenth (r - 1)) = true).
    { apply negb_true_iff. destruct (Qle_bool oneTenth (r - 1)) eqn:Hle; [|reflexivity].
      apply Qle_bool_iff in Hle. exfalso. apply (Qlt_not_le _ _ Hnear Hle). }
    rewrite Hb, orb_true_r. reflexivity.
  - intros dpr [-> | [-> | ->]]; reflexivity.
  - intros dpr. reflexivity.
Qed.

Lemma bracketDevicePixelRatio_picks_scale_witness :
  fst (bracketDevicePixelRatio (Some srcsetScales) (Some (Fin (3 # 2)))) = (15 # 10)%Q
  /\ fst (bracketDevicePixelRatio (Some srcsetScales) (Some (Fin (105 # 100)))) = 1%Q
  /\ fst (bracketDevicePixelRatio (Some srcsetScales) (Some (Fin (4 # 1)))) = (3 # 1)%Q.
Proof.
  destruct (bracketDevicePixelRatio_picks_scale srcsetScales (105 # 100) eq_refl)
    as (_ & _ & _ & Hone & _).
  split; [reflexivity|]. split; [|reflexivity].
  apply Hone. reflexivity.
Defined.

(** ** The hash and the pattern of the route *)

Example matchesCoordinate_examples :
  matchesCoordinate "-122.4006" = true
  /\ matchesCoordinate "+37" = true
  /\ matchesCoordinate "37." = true
  /\ matchesCoordinate "37.787312" = false
  /\ matchesCoordinate ".5" = false
  /\ matchesCoordinate "1e21" = false
  /\ matchesCoordinate "NaN" = false.
Proof. repeat split. Qed.

Lemma append_String (c : ascii) (a b : string) :
  String c a ++ b = String c (a ++ b).
Proof. reflexivity. Qed.

Lemma length_append_string (a b : string) :
  String.length (a ++ b) = (String.length a + String.length b)%nat.
Proof.
  induction a as [|c a IH]; [reflexivity|].
  rewrite append_String. cbn [String.length]. rewrite IH. reflexivity.
Qed.

Lemma length_zeros (n : nat) : String.length (zeros n) = n.
Proof. induction n; cbn [zeros String.length]; congruence. Qed.

Lemma length_substring_string (s : string) (n k : nat) :
  (n + k <= String.length s)%nat -> String.length (substring n k s) = k.
Proof.
  revert n k. induction s as [|c s IH]; intros n k Hle; cbn [String.length] in Hle.
  - assert (n = 0%nat) as -> by lia. assert (k = 0%nat) as -> by lia. reflexivity.
  - destruct n as [|n]; cbn [substring].
    + destruct k as [|k]; [reflexivity|]. cbn [String.length].
      rewrite (IH 0%nat k) by lia. reflexivity.
    + apply IH. lia.
Qed.

Lemma pretty_N_char_digit (x : N) : is_digit (pretty_N_char x) = true.
Proof. unfold pretty_N_char. repeat case_match; reflexivity. Qed.

Lemma pretty_N_go_digits (x : N) (s : string) :
  all_chars is_digit s = true -> all_chars is_digit (pretty_N_go x s) = true.
Proof.
  revert s. induction (N.lt_wf_0 x) as [x _ IH]; intros s Hs.
  destruct (decide (x = 0)%N) as [->|Hx].
  - rewrite pretty_N_go_0. exact Hs.
  - rewrite pretty_N_go_step by lia. apply IH.
    + apply N.div_lt; lia.
    + cbn [all_chars]. rewrite pretty_N_char_digit. exact Hs.
Qed.

Lemma pretty_N_digits (x : N) : all_chars is_digit (pretty x) = true.
Proof.
  unfold pretty, pretty_N. case_decide; [reflexivity|].
  apply pretty_N_go_digits. reflexivity.
Qed.

Lemma digit_not_sign (c : ascii) :
  is_digit c = true -> Ascii.eqb c "+" || Ascii.eqb c "-" = false.
Proof.
  intros Hc. apply orb_false_iff.
  split; destruct (Ascii.eqb_spec c "+"), (Ascii.eqb_spec c "-");
    subst; try reflexivity; discriminate Hc.
Qed.

Lemma dropDigits_end (a : string) :
  all_chars is_digit a = true -> dropDigits a = "".
Proof.
  induction a as [|c a IH]; [reflexivity|]. cbn [all_chars dropDigits].
  intros [Hc Ha]%andb_true_iff. rewrite Hc. apply IH, Ha.
Qed.

Lemma dropDigits_point (a b : string) :
  all_chars is_digit a = true -> dropDigits (a ++ String "." b) = String "." b.
Proof.
  induction a as [|c a IH]; [reflexivity|]. cbn [all_chars].
  intros [Hc Ha]%andb_true_iff. rewrite append_String. cbn [dropDigits].
  rewrite Hc. apply IH, Ha.
Qed.

Lemma matchesCoordinate_printed (negative : bool) (a tail : string) :
  all_chars is_digit a = true -> a <> "" ->
  tail = "" \/ (exists b, tail = String "." b
                          /\ all_chars is_digit b = true
                          /\ (String.length b <= 5)%nat) ->
  matchesCoordinate ((if negative then "-" else "") ++ a ++ tail) = true.
Proof.
  intros Ha Hne Htail.
  assert (Hunsigned :
    matchesCoordinate ((if negative then "-" else "") ++ a ++ tail)
    = let rest := dropDigits (a ++ tail) in
      (String.length rest <? String.length (a ++ tail))%nat
      && match rest with
         | EmptyString => true
         | String c decimals =>
             Ascii.eqb c "." && all_chars is_digit decimals
             && (String.length decimals <=? 5)%nat
         end).
  { destruct a as [|c a]; [congruence|]. cbn [all_chars] in Ha.
    apply andb_true_iff in Ha as [Hc _].
    destruct negative.
    - reflexivity.
    - change ("" ++ String c a ++ tail) with (String c (a ++ tail)).
      rewrite append_String. unfold matchesCoordinate.
      rewrite (digit_not_sign c Hc). reflexivity. }
  rewrite Hunsigned. cbv zeta.
  assert (Hlen : (0 < String.length a)%nat).
  { destruct a; [congruence|]. cbn [String.length]. lia. }
  destruct Htail as [->|(b & -> & Hb & Hfive)].
  - assert (a ++ "" = a) as ->.
    { clear. induction a as [|c a IH]; [reflexivity|].
      rewrite append_String, IH. reflexivity. }
    rewrite (dropDigits_end a Ha). cbn [String.length].
    rewrite andb_true_r. apply Nat.ltb_lt, Hlen.
  - rewrite (dropDigits_point a b Ha), length_append_string.
    rewrite Hb. apply andb_true_iff. split.
    + apply Nat.ltb_lt. lia.
    + apply Nat.leb_le, Hfive.
Qed.

Lemma toFixed_matchesCoordinate (x : Q) (fractionDigits : option nat) :
  (default 0%nat fractionDigits <= 5)%nat ->
  matchesCoordinate (toFixed x fractionDigits) = true.
Proof.
  intros Hfive. unfold toFixed. cbv zeta.
  set (f := default 0%nat fractionDigits) in *.
  set (p := pretty (nearest (Qabs x) f)).
  assert (Hp : all_chars is_digit p = true) by apply pretty_N_digits.
  assert (Hpne : p <> "") by apply pretty_N_nonempty.
  destruct (f =? 0)%nat eqn:Hf.
  - replace p with (p ++ "").
    2:{ clear. induction p as [|c p IH]; [reflexivity|].
        rewrite append_String, IH. reflexivity. }
    apply matchesCoordinate_printed; auto.
  - apply Nat.eqb_neq in Hf.
    set (m := zeros (f + 1 - String.length p) ++ p).
    assert (Hm : all_chars is_digit m = true).
    { unfold m. rewrite all_chars_app, Hp, all_chars_zeros; reflexivity. }
    assert (Hk : (f + 1 <= String.length m)%nat).
    { unfold m. rewrite length_append_string, length_zeros. lia. }
    change ("." ++ substring (String.length m - f) f m)
      with (String "." (substring (String.length m - f) f m)).
    apply matchesCoordinate_printed.
    + apply all_chars_substring, Hm.
    + intros Hempty.
      pose proof (length_substring_string m 0 (String.length m - f) ltac:(lia)) as Hl.
      rewrite Hempty in Hl. cbn [String.length] in Hl. lia.
    + right. eexists. split; [reflexivity|]. split.
      * apply all_chars_substring, Hm.
      * rewrite length_substring_string by lia. exact Hfive.
Qed.

Lemma matchesNumber_digits (s : string) :
  all_chars is_digit s = true -> s <> "" -> matchesNumber s = true.
Proof. intros Hd Hne. destruct s; [congruence|exact Hd]. Qed.

Lemma precisionAt_five (zoom : Z) : (default 0%nat (precisionAt zoom) <= 5)%nat.
Proof.
  unfold precisionAt. destruct (zoom <? 0)%Z; [vm_compute; lia|].
  generalize (Z.to_nat zoom). intros n. unfold precisionPerZoom.
  do 19 (destruct n as [|n]; [vm_compute; lia|]). vm_compute. lia.
Qed.

(** X20.  What a map prints into its hash is what the route of the page
    reads.  Both coordinates of [getScaleLatLng], at any zoom and for any
    latitude and longitude that [toFixed] prints in positional notation
    (a magnitude below 10^21), are read whole by the pattern
    [[+-]?\d+\.?\d{0,5}] of the route: no table entry asks for more than
    five decimals.  The zoom in front of them is read by [[0-9]+] exactly
    when it is not negative. *)
Theorem printed_position_matches_route `{Surface V} (m : KMap V)
    (lat lng : Q) (zoom : option Z) :
  (Qabs lat < inject_Z (10 ^ 21))%Q ->
  (Qabs lng < inject_Z (10 ^ 21))%Q ->
  Forall (fun coordinate => matchesCoordinate coordinate = true)
    (getScaleLatLng m lat lng zoom)
  /\ Forall (fun precision => (precision <= 5)%nat) precisionPerZoom
  /\ (forall z : Z, matchesNumber (toString z) = (0 <=? z)%Z).
Proof.
  intros _ _. split; [|split].
  - unfold getScaleLatLng.
    repeat constructor; apply toFixed_matchesCoordinate, precisionAt_five.
  - unfold precisionPerZoom. repeat constructor.
  - intros z. unfold toString, pretty, pretty_Z. destruct z as [|p|p].
    + reflexivity.
    + change (0 <=? Z.pos p)%Z with true.
      apply matchesNumber_digits;
        [apply (pretty_N_digits (Npos p)) | apply (pretty_N_nonempty (Npos p))].
    + reflexivity.
Qed.

Lemma printed_position_matches_route_witness :
  Forall (fun coordinate => matchesCoordinate coordinate = true)
    (getScaleLatLng mapAtEiffel (488584 # 10000) (-(22945 # 10000)) (Some 13%Z))
  /\ matchesNumber (toString 13) = true.
Proof.
  destruct (printed_position_matches_route mapAtEiffel
              (488584 # 10000) (-(22945 # 10000)) (Some 13%Z))
    as (Hcoordinates & _ & Hzoom).
  - reflexivity.
  - reflexivity.
  - split; [exact Hcoordinates | apply Hzoom].
Defined.
